(** * TimeSync scheduler: the appointment store and the booking form

    A shallow embedding of the storage service ([serialize],
    [deserialize], [getAppointments], [saveAppointment],
    [deleteAppointment], [checkAvailability] of
    [services/storageService.ts]), of [Appointment] ([types.ts]), of
    [LOCAL_STORAGE_KEY] ([constants.ts]) and of the submit handler of
    the booking modal ([handleSubmit] of [BookingModal], which
    [App.tsx] imports from [components/BookingModal]), together with
    the parts of the JavaScript platform these functions run on:
    strings of UTF-16 code units, [Date] time values and their ISO
    form, [JSON.stringify], [JSON.parse] and [localStorage].

    What the language definition fixes is modelled as it is defined;
    what it leaves to the engine or to the time zone, and what needs
    binary floating point, is a parameter ([Platform]).  An exception
    is a [None] result; the only exceptions that can arise are those
    of [JSON.parse] and of the callback of [data.map], which
    [getAppointments] catches. *)

From stdpp Require Import base list gmap strings.
From Stdlib Require Import ZArith Lia.

Set Warnings "-register-all".

Open Scope Z_scope.

(** ** JavaScript strings

    A JavaScript string is a sequence of 16-bit code units; a code unit
    is kept as its number. *)

Abbreviation jstring := (list N).

Definition js (s : string) : jstring :=
  (λ c, Ascii.N_of_ascii c) <$> String.list_ascii_of_string s.

(** ** Numbers that are time values

    [getTime()] is an integral number of milliseconds or [NaN]; [None]
    stands for [NaN].  A comparison with [NaN] is false. *)

Abbreviation number := (option Z).

Definition NaN : number := None.

Definition num_lt (a b : number) : bool :=
  match a, b with
  | Some x, Some y => bool_decide (x < y)
  | _, _ => false
  end.

Definition num_gt (a b : number) : bool := num_lt b a.

Definition num_add (a b : number) : number :=
  x ← a; y ← b; Some (x + y).

(** ** Date objects

    A [Date] holds a time value: [NaN] (an Invalid Date) or a whole
    number of milliseconds since the epoch of magnitude at most
    8.64e15. *)

Abbreviation Date := (option Z).

Definition maxTime : Z := 8640000000000000.

Definition in_time_range (t : Z) : bool :=
  bool_decide (- maxTime ≤ t) && bool_decide (t ≤ maxTime).

(** [TimeClip] on an integral number. *)
Definition TimeClip (n : number) : Date :=
  t ← n; if in_time_range t then Some t else None.

Definition getTime (d : Date) : number := d.

(** A valid timestamp: a time value a [Date] can hold, other than [NaN]. *)
Definition valid_date (d : Date) : Prop :=
  ∃ t, d = Some t ∧ - maxTime ≤ t ≤ maxTime.

(** *** Calendar arithmetic ([Day], [YearFromTime], [MonthFromTime],
    [DateFromTime] and [MakeDay] of the language definition, in the
    proleptic Gregorian calendar; months count from 1 here). *)

Definition msPerDay : Z := 86400000.

(** Day within a 400-year era (which starts on 1 March) to year of the
    era, month and day of the month. *)
Definition civil_of_doe (doe : Z) : Z * Z * Z :=
  let yoe := (doe - doe / 1460 + doe / 36524 - doe / 146096) / 365 in
  let doy := doe - (365 * yoe + yoe / 4 - yoe / 100) in
  let mp := (5 * doy + 2) / 153 in
  let d := doy - (153 * mp + 2) / 5 + 1 in
  let m := if bool_decide (mp < 10) then mp + 3 else mp - 9 in
  (yoe, m, d).

Definition doe_of_civil (yoe m d : Z) : Z :=
  let mp := if bool_decide (2 < m) then m - 3 else m + 9 in
  let doy := (153 * mp + 2) / 5 + d - 1 in
  yoe * 365 + yoe / 4 - yoe / 100 + doy.

(** Days since the epoch to (year, month, day). *)
Definition civil_from_days (z : Z) : Z * Z * Z :=
  let z := z + 719468 in
  let era := z / 146097 in
  let '(yoe, m, d) := civil_of_doe (z `mod` 146097) in
  let y := yoe + era * 400 in
  (if bool_decide (m ≤ 2) then y + 1 else y, m, d).

(** (year, month, day) to days since the epoch. *)
Definition days_from_civil (y m d : Z) : Z :=
  let y := if bool_decide (m ≤ 2) then y - 1 else y in
  (y / 400) * 146097 + doe_of_civil (y `mod` 400) m d - 719468.

(** *** The ISO form of a time value: [Date.prototype.toISOString] *)

Definition digit (d : Z) : N := Z.to_N (48 + d).

(** [k] decimal digits of [n], the most significant first. *)
Fixpoint pad (k : nat) (n : Z) : jstring :=
  match k with
  | O => []
  | S k' => pad k' (n / 10) ++ [digit (n `mod` 10)]
  end.

(** Four digits for the years 0 to 9999, a sign and six digits for the
    others. *)
Definition year_string (y : Z) : jstring :=
  if bool_decide (0 ≤ y) && bool_decide (y ≤ 9999) then pad 4 y
  else (if bool_decide (y < 0) then js "-" else js "+") ++ pad 6 (Z.abs y).

Definition toISOString (t : Z) : jstring :=
  let tod := t `mod` msPerDay in
  let '(y, m, d) := civil_from_days (t / msPerDay) in
  year_string y ++ js "-" ++ pad 2 m ++ js "-" ++ pad 2 d ++ js "T"
    ++ pad 2 (tod / 3600000) ++ js ":" ++ pad 2 ((tod / 60000) `mod` 60)
    ++ js ":" ++ pad 2 ((tod / 1000) `mod` 60) ++ js "." ++ pad 3 (tod `mod` 1000)
    ++ js "Z".

(** *** Reading the ISO form back: the part of [Date.parse] that the
    language definition fixes *)

Definition digit_val (c : N) : option Z :=
  if bool_decide (48 ≤ c)%N && bool_decide (c ≤ 57)%N
  then Some (Z.of_N c - 48) else None.

Fixpoint read_digits (k : nat) (acc : Z) (s : jstring) : option (Z * jstring) :=
  match k with
  | O => Some (acc, s)
  | S k' =>
      match s with
      | c :: r => d ← digit_val c; read_digits k' (10 * acc + d) r
      | [] => None
      end
  end.

Definition expect (c : N) (s : jstring) : option jstring :=
  match s with
  | c' :: r => if bool_decide (c = c') then Some r else None
  | [] => None
  end.

Definition read_year (s : jstring) : option (Z * jstring) :=
  match s with
  | c :: r =>
      if bool_decide (c = 43%N) then read_digits 6 0 r
      else if bool_decide (c = 45%N) then
        '(y, r') ← read_digits 6 0 r; Some (- y, r')
      else read_digits 4 0 s
  | [] => None
  end.

(** The time value denoted by the fields of
    [YYYY-MM-DDTHH:mm:ss.sssZ] (or with an expanded year). *)
Definition iso_fields (s : jstring) : option Z :=
  '(y, s) ← read_year s;
  s ← expect 45 s;
  '(m, s) ← read_digits 2 0 s;
  s ← expect 45 s;
  '(d, s) ← read_digits 2 0 s;
  s ← expect 84 s;
  '(h, s) ← read_digits 2 0 s;
  s ← expect 58 s;
  '(mi, s) ← read_digits 2 0 s;
  s ← expect 58 s;
  '(sec, s) ← read_digits 2 0 s;
  s ← expect 46 s;
  '(ms, s) ← read_digits 3 0 s;
  s ← expect 90 s;
  match s with
  | [] => Some (days_from_civil y m d * msPerDay
                + h * 3600000 + mi * 60000 + sec * 1000 + ms)
  | _ :: _ => None
  end.

(** A string is in canonical form when it is the ISO form of a time
    value in range; it then denotes that time value.  This excludes
    strings of the right shape with illegal field values; every string
    that is not in canonical form is left to the platform. *)
Definition Date_parse_iso (s : jstring) : option Z :=
  t ← iso_fields s;
  if in_time_range t && bool_decide (toISOString t = s) then Some t else None.

(** ** Values

    The values the store handles at run time: what [JSON.parse] builds,
    plus [undefined] and [Date] objects.  An object is the list of its
    own properties in the order in which the engine lists them: those
    whose names are array indices first, in ascending order, then the
    others in creation order.  [VNum m e] is the number
    [m * 10^e], as a JSON literal denotes it; the binary64 number that
    JavaScript keeps is a function of it. *)

Inductive value : Type :=
  | VUndefined
  | VNull
  | VBool (b : bool)
  | VNum (m e : Z)
  | VStr (s : jstring)
  | VDate (t : Date)
  | VArr (elems : list value)
  | VObj (props : list (jstring * value)).

Abbreviation object := (list (jstring * value)).

(** [o[k]] for an own property, [undefined] when there is none. *)
Fixpoint obj_get (o : object) (k : jstring) : value :=
  match o with
  | [] => VUndefined
  | (k', v) :: o' => if bool_decide (k' = k) then v else obj_get o' k
  end.

(** An array index: the decimal numeral, without a superfluous leading
    zero, of a whole number below [2^32 - 1]. *)
Definition array_index (k : jstring) : option Z :=
  match k with
  | [] => None
  | c :: r =>
      if bool_decide (c = 48%N) && negb (bool_decide (r = [])) then None
      else
        ds ← mapM digit_val k;
        let n := fold_left (λ a d, 10 * a + d) ds 0 in
        if bool_decide (n < 4294967295) then Some n else None
  end.

(** Whether the key [k] is listed before the key [k']: an array index
    before a greater one and before every other key. *)
Definition goes_before (k k' : jstring) : bool :=
  match array_index k, array_index k' with
  | Some i, Some j => bool_decide (i < j)
  | Some _, None => true
  | None, _ => false
  end.

(** Defining a property: an existing key keeps its place and takes the
    new value; a new key goes last, unless it is an array index, which
    goes before the keys that are listed after it. *)
Fixpoint obj_set (o : object) (k : jstring) (v : value) : object :=
  match o with
  | [] => [(k, v)]
  | (k', v') :: o' =>
      if bool_decide (k' = k) then (k, v) :: o'
      else if goes_before k k' then (k, v) :: o
      else (k', v') :: obj_set o' k v
  end.

(** ** The platform

    What the language definition leaves to the engine and its
    environment, and what depends on binary floating point. *)

Class Platform := {
  (** [Date.parse] on a string that is not in canonical form: forms in
      local time and the engine's own formats. *)
  Date_parse_impl : jstring → Date;
  (** [new Date(v)] for [v] an array, an object or a number with a
      fractional part; [None] when the conversion throws. *)
  Date_of_other : value → option Date;
  (** The text of the number [m * 10^e] in [JSON.stringify]. *)
  Number_toString : Z → Z → jstring;
}.

(** ** [JSON.stringify] *)

Definition hex_digit (d : N) : N :=
  if bool_decide (d < 10)%N then (48 + d)%N else (87 + d)%N.

(** [\uXXXX], in lower case. *)
Definition unicode_escape (c : N) : jstring :=
  [92; 117; hex_digit ((c / 4096) `mod` 16); hex_digit ((c / 256) `mod` 16);
   hex_digit ((c / 16) `mod` 16); hex_digit (c `mod` 16)]%N.

Definition is_lead (c : N) : bool :=
  bool_decide (55296 ≤ c)%N && bool_decide (c ≤ 56319)%N.

Definition is_trail (c : N) : bool :=
  bool_decide (56320 ≤ c)%N && bool_decide (c ≤ 57343)%N.

(** A code unit that is not a surrogate. *)
Definition quote_unit (c : N) : jstring :=
  if bool_decide (c = 8%N) then js "\b"
  else if bool_decide (c = 9%N) then js "\t"
  else if bool_decide (c = 10%N) then js "\n"
  else if bool_decide (c = 12%N) then js "\f"
  else if bool_decide (c = 13%N) then js "\r"
  else if bool_decide (c = 34%N) then [92; 34]%N
  else if bool_decide (c = 92%N) then [92; 92]%N
  else if bool_decide (c < 32)%N then unicode_escape c
  else [c].

(** A surrogate pair is kept, a lone surrogate is escaped. *)
Fixpoint quote_units (s : jstring) : jstring :=
  match s with
  | [] => []
  | c :: r =>
      if is_lead c then
        match r with
        | d :: r' =>
            if is_trail d then c :: d :: quote_units r'
            else unicode_escape c ++ quote_units r
        | [] => unicode_escape c
        end
      else if is_trail c then unicode_escape c ++ quote_units r
      else quote_unit c ++ quote_units r
  end.

Definition QuoteJSONString (s : jstring) : jstring :=
  34%N :: quote_units s ++ [34%N].

Fixpoint comma_join (l : list jstring) : jstring :=
  match l with
  | [] => []
  | [x] => x
  | x :: r => x ++ 44%N :: comma_join r
  end.

Section stringify.
Context `{Platform}.

(** The text of a value as an array element or a property value.  A
    [Date] gives its [toJSON()]: the ISO form, or [null] for an
    Invalid Date.  [undefined] is [null] in an array, and a property
    whose value is [undefined] is left out. *)
Fixpoint stringify_value (v : value) : jstring :=
  match v with
  | VUndefined => js "null"
  | VNull => js "null"
  | VBool b => if b then js "true" else js "false"
  | VNum m e => Number_toString m e
  | VStr s => QuoteJSONString s
  | VDate None => js "null"
  | VDate (Some t) => QuoteJSONString (toISOString t)
  | VArr l => (91%N :: comma_join (stringify_value <$> l)) ++ [93%N]
  | VObj o =>
      (123%N :: comma_join
         ((fix members (o : object) : list jstring :=
             match o with
             | [] => []
             | (k, VUndefined) :: o' => members o'
             | (k, v) :: o' =>
                 (QuoteJSONString k ++ 58%N :: stringify_value v) :: members o'
             end) o)) ++ [125%N]
  end.
End stringify.

(** ** [JSON.parse] *)

Definition is_ws (c : N) : bool :=
  bool_decide (c = 32%N) || bool_decide (c = 9%N)
  || bool_decide (c = 10%N) || bool_decide (c = 13%N).

Fixpoint skip_ws (s : jstring) : jstring :=
  match s with
  | c :: r => if is_ws c then skip_ws r else s
  | [] => []
  end.

Definition hex_val (c : N) : option N :=
  if bool_decide (48 ≤ c)%N && bool_decide (c ≤ 57)%N then Some (c - 48)%N
  else if bool_decide (97 ≤ c)%N && bool_decide (c ≤ 102)%N then Some (c - 87)%N
  else if bool_decide (65 ≤ c)%N && bool_decide (c ≤ 70)%N then Some (c - 55)%N
  else None.

Definition hex4 (a b c d : N) : option N :=
  a ← hex_val a; b ← hex_val b; c ← hex_val c; d ← hex_val d;
  Some (a * 4096 + b * 256 + c * 16 + d)%N.

(** The character after a backslash, other than [u]. *)
Definition unescape (c : N) : option N :=
  if bool_decide (c = 34%N) then Some 34%N
  else if bool_decide (c = 92%N) then Some 92%N
  else if bool_decide (c = 47%N) then Some 47%N
  else if bool_decide (c = 98%N) then Some 8%N
  else if bool_decide (c = 102%N) then Some 12%N
  else if bool_decide (c = 110%N) then Some 10%N
  else if bool_decide (c = 114%N) then Some 13%N
  else if bool_decide (c = 116%N) then Some 9%N
  else None.

(** The characters of a string literal, from after the opening quote
    to the closing one. *)
Fixpoint parse_chars (s : jstring) : option (jstring * jstring) :=
  match s with
  | [] => None
  | c :: r =>
      if bool_decide (c = 34%N) then Some ([], r)
      else if bool_decide (c = 92%N) then
        match r with
        | [] => None
        | e :: r' =>
            if bool_decide (e = 117%N) then
              match r' with
              | h1 :: h2 :: h3 :: h4 :: r'' =>
                  u ← hex4 h1 h2 h3 h4;
                  '(str, rest) ← parse_chars r'';
                  Some (u :: str, rest)
              | _ => None
              end
            else
              u ← unescape e;
              '(str, rest) ← parse_chars r';
              Some (u :: str, rest)
        end
      else if bool_decide (c < 32)%N then None
      else '(str, rest) ← parse_chars r; Some (c :: str, rest)
  end.

Fixpoint span_digits (s : jstring) : list Z * jstring :=
  match s with
  | c :: r =>
      match digit_val c with
      | Some d => let '(ds, rest) := span_digits r in (d :: ds, rest)
      | None => ([], s)
      end
  | [] => ([], [])
  end.

Definition digits_value (ds : list Z) : Z :=
  fold_left (λ a d, 10 * a + d) ds 0.

(** A number literal: an optional minus, an integer part without a
    superfluous leading zero, an optional fraction, an optional
    exponent. *)
Definition parse_number (s : jstring) : option (value * jstring) :=
  let '(sign, s) :=
    match s with
    | c :: r => if bool_decide (c = 45%N) then (-1, r) else (1, s)
    | [] => (1, s)
    end in
  let '(ip, s) := span_digits s in
  match ip with
  | [] => None
  | d :: ds =>
      if bool_decide (d = 0) && negb (bool_decide (ds = [])) then None
      else
        '(fp, s) ←
          match s with
          | c :: r =>
              if bool_decide (c = 46%N) then
                let '(fp, r') := span_digits r in
                if bool_decide (fp = []) then None else Some (fp, r')
              else Some ([], s)
          | [] => Some ([], s)
          end;
        '(ex, s) ←
          match s with
          | c :: r =>
              if bool_decide (c = 101%N) || bool_decide (c = 69%N) then
                let '(esign, r) :=
                  match r with
                  | c' :: r' =>
                      if bool_decide (c' = 45%N) then (-1, r')
                      else if bool_decide (c' = 43%N) then (1, r')
                      else (1, r)
                  | [] => (1, r)
                  end in
                let '(ep, r') := span_digits r in
                if bool_decide (ep = []) then None
                else Some (esign * digits_value ep, r')
              else Some (0, s)
          | [] => Some (0, s)
          end;
        Some (VNum (sign * digits_value (ip ++ fp)) (ex - Z.of_nat (length fp)), s)
  end.

Fixpoint expect_string (p s : jstring) : option jstring :=
  match p with
  | [] => Some s
  | c :: p' => s' ← expect c s; expect_string p' s'
  end.

(** The members read from an object literal, defined in order: a
    later duplicate of a key replaces the value of the earlier one. *)
Definition make_object (ms : list (jstring * value)) : object :=
  fold_left (λ o kv, obj_set o kv.1 kv.2) ms [].

(** [fuel] bounds the number of nested calls; [JSON_parse] gives
    enough of it for the whole text. *)
Fixpoint parse_value (fuel : nat) (s : jstring) : option (value * jstring) :=
  match fuel with
  | O => None
  | S fuel =>
      match skip_ws s with
      | [] => None
      | c :: r =>
          if bool_decide (c = 123%N) then
            match skip_ws r with
            | [] => None
            | c' :: r' =>
                if bool_decide (c' = 125%N) then Some (VObj [], r')
                else
                  '(ms, rest) ← parse_members fuel (c' :: r');
                  Some (VObj (make_object ms), rest)
            end
          else if bool_decide (c = 91%N) then
            match skip_ws r with
            | [] => None
            | c' :: r' =>
                if bool_decide (c' = 93%N) then Some (VArr [], r')
                else
                  '(vs, rest) ← parse_elements fuel (c' :: r');
                  Some (VArr vs, rest)
            end
          else if bool_decide (c = 34%N) then
            '(str, rest) ← parse_chars r; Some (VStr str, rest)
          else if bool_decide (c = 116%N) then
            rest ← expect_string (js "rue") r; Some (VBool true, rest)
          else if bool_decide (c = 102%N) then
            rest ← expect_string (js "alse") r; Some (VBool false, rest)
          else if bool_decide (c = 110%N) then
            rest ← expect_string (js "ull") r; Some (VNull, rest)
          else parse_number (c :: r)
      end
  end
with parse_elements (fuel : nat) (s : jstring) : option (list value * jstring) :=
  match fuel with
  | O => None
  | S fuel =>
      '(v, r) ← parse_value fuel s;
      match skip_ws r with
      | [] => None
      | c :: r' =>
          if bool_decide (c = 44%N) then
            '(vs, rest) ← parse_elements fuel r'; Some (v :: vs, rest)
          else if bool_decide (c = 93%N) then Some ([v], r')
          else None
      end
  end
with parse_members (fuel : nat) (s : jstring)
    : option (list (jstring * value) * jstring) :=
  match fuel with
  | O => None
  | S fuel =>
      match skip_ws s with
      | [] => None
      | c :: r =>
          if bool_decide (c = 34%N) then
            '(k, r1) ← parse_chars r;
            r2 ← expect 58%N (skip_ws r1);
            '(v, r3) ← parse_value fuel r2;
            match skip_ws r3 with
            | [] => None
            | c' :: r4 =>
                if bool_decide (c' = 44%N) then
                  '(ms, rest) ← parse_members fuel r4; Some ((k, v) :: ms, rest)
                else if bool_decide (c' = 125%N) then Some ([(k, v)], r4)
                else None
            end
          else None
      end
  end.

(** [JSON.parse]: [None] when it throws a [SyntaxError]. *)
Definition JSON_parse (text : jstring) : option value :=
  '(v, rest) ← parse_value (2 * length text + 1) text;
  match skip_ws rest with
  | [] => Some v
  | _ :: _ => None
  end.

(** ** [types.ts]: appointments *)

Inductive AppointmentType := meeting | block | personal | availability.

Record Appointment := {
  id : jstring;
  title : jstring;
  start : Date;
  end_ : Date;
  requesterName : jstring;
  description : option jstring;
  type : AppointmentType;
}.

Inductive Role := owner | colleague.

#[global] Instance AppointmentType_eq_dec : EqDecision AppointmentType.
Proof. solve_decision. Defined.

#[global] Instance Role_eq_dec : EqDecision Role.
Proof. solve_decision. Defined.

Definition type_string (ty : AppointmentType) : jstring :=
  match ty with
  | meeting => js "meeting"
  | block => js "block"
  | personal => js "personal"
  | availability => js "availability"
  end.

(** An appointment as an object: the properties of the literal in
    [handleSubmit], in its order; the optional one is there when it
    has a value. *)
Definition to_object (a : Appointment) : object :=
  [(js "id", VStr (id a)); (js "title", VStr (title a));
   (js "start", VDate (start a)); (js "end", VDate (end_ a));
   (js "requesterName", VStr (requesterName a))]
  ++ match description a with
     | Some d => [(js "description", VStr d)]
     | None => []
     end
  ++ [(js "type", VStr (type_string (type a)))].

(** The text form of an appointment: what [JSON.stringify] writes for
    it is what it writes for this value. *)
Definition date_json (d : Date) : value :=
  match d with
  | Some t => VStr (toISOString t)
  | None => VNull
  end.

Definition json_of (a : Appointment) : value :=
  VObj ([(js "id", VStr (id a)); (js "title", VStr (title a));
         (js "start", date_json (start a)); (js "end", date_json (end_ a));
         (js "requesterName", VStr (requesterName a))]
        ++ match description a with
           | Some d => [(js "description", VStr d)]
           | None => []
           end
        ++ [(js "type", VStr (type_string (type a)))]).

(** The fields the round trip is about. *)
Definition fields (o : object) : value * value * value * value * value * value :=
  (obj_get o (js "id"), obj_get o (js "title"), obj_get o (js "start"),
   obj_get o (js "end"), obj_get o (js "requesterName"), obj_get o (js "type")).

(** ** [constants.ts] *)

Definition LOCAL_STORAGE_KEY : jstring := js "timesync_appointments_v1".

(** ** [services/storageService.ts] *)

(** [localStorage]: a map from keys to strings; [getItem] of a missing
    key is [null]. *)
Abbreviation Storage := (gmap jstring jstring).

(** The decimal text of an array index. *)
Fixpoint decimal_fuel (fuel : nat) (n : Z) : jstring :=
  match fuel with
  | O => []
  | S fuel' =>
      if bool_decide (n < 10) then [digit n]
      else decimal_fuel fuel' (n / 10) ++ [digit (n `mod` 10)]
  end.

Definition index_key (i : nat) : jstring := decimal_fuel (S i) (Z.of_nat i).

(** The own enumerable properties that [{...v}] copies. *)
Definition spread (v : value) : object :=
  match v with
  | VObj o => o
  | VArr l => imap (λ i x, (index_key i, x)) l
  | VStr s => imap (λ i c, (index_key i, VStr [c])) s
  | _ => []
  end.

(** [v.start] and [v.end]: a [TypeError] ([None]) on [null] and
    [undefined]; on an object the own property; on the other values
    [undefined], since neither name is a property of their prototypes. *)
Definition member (v : value) (k : jstring) : option value :=
  match v with
  | VUndefined | VNull => None
  | VObj o => Some (obj_get o k)
  | _ => Some VUndefined
  end.

(** [apt.start.getTime()] and [apt.end.getTime()] on a record that
    [deserialize] built: it made both properties [Date] objects
    ([deserialize_dates] below), so the other cases do not arise. *)
Definition time_of (v : value) : number :=
  match v with
  | VDate d => getTime d
  | _ => NaN
  end.

(** [a.id === i] for a string [i]. *)
Definition has_id (i : jstring) (a : object) : bool :=
  match obj_get a (js "id") with
  | VStr s => bool_decide (s = i)
  | _ => false
  end.

(** The test in [checkAvailability], on the four [getTime()] values. *)
Definition overlaps (checkStart checkEnd aptStart aptEnd : number) : bool :=
  num_lt checkStart aptEnd && num_gt checkEnd aptStart.

Section storageService.
Context `{Platform}.

(** [Date.parse]: the canonical form first. *)
Definition Date_parse (s : jstring) : Date :=
  match Date_parse_iso s with
  | Some t => Some t
  | None => Date_parse_impl s
  end.

(** [new Date(v)]; [None] when it throws.  The constructor clips
    the time value it is given. *)
Definition new_Date (v : value) : option Date :=
  match v with
  | VUndefined => Some NaN
  | VNull => Some (Some 0)
  | VBool b => Some (Some (if b then 1 else 0))
  | VNum m e =>
      if bool_decide (0 ≤ e) then Some (TimeClip (Some (m * 10 ^ e)))
      else if bool_decide (m `mod` 10 ^ (- e) = 0)
      then Some (TimeClip (Some (m / 10 ^ (- e))))
      else TimeClip <$> Date_of_other v
  | VStr s => Some (TimeClip (Date_parse s))
  | VDate t => Some (TimeClip t)
  | VArr _ | VObj _ => TimeClip <$> Date_of_other v
  end.

Definition serialize (appointments : list object) : jstring :=
  stringify_value (VArr (VObj <$> appointments)).

(** The callback of [data.map]:
    [{...apt, start: new Date(apt.start), end: new Date(apt.end)}]. *)
Definition revive (apt : value) : option object :=
  s ← member apt (js "start");
  ds ← new_Date s;
  e ← member apt (js "end");
  de ← new_Date e;
  Some (obj_set (obj_set (spread apt) (js "start") (VDate ds))
          (js "end") (VDate de)).

(** [None] when [JSON.parse] throws, when [data.map] is not a
    function (only arrays have it) or when the callback throws. *)
Definition deserialize (json : jstring) : option (list object) :=
  data ← JSON_parse json;
  match data with
  | VArr l => mapM revive l
  | _ => None
  end.

Definition getAppointments (ls : Storage) : list object :=
  match ls !! LOCAL_STORAGE_KEY with
  | None | Some [] => []
  | Some stored =>
      match deserialize stored with
      | Some appointments => appointments
      | None => []
      end
  end.

(** The returned array and the storage after the call. *)
Definition saveAppointment (appointment : Appointment) (ls : Storage)
    : list object * Storage :=
  let current := getAppointments ls in
  let updated :=
    match list_find (λ a, has_id (id appointment) a) current with
    | Some (index, _) => <[index := to_object appointment]> current
    | None => current ++ [to_object appointment]
    end in
  (updated, <[LOCAL_STORAGE_KEY := serialize updated]> ls).

Definition deleteAppointment (i : jstring) (ls : Storage)
    : list object * Storage :=
  let current := getAppointments ls in
  let updated := filter (λ a, ¬ has_id i a) current in
  (updated, <[LOCAL_STORAGE_KEY := serialize updated]> ls).

(** [excludeId] is [None] when the argument is left out; an empty
    string is as falsy as [undefined]. *)
Definition checkAvailability (start end_ : Date) (excludeId : option jstring)
    (ls : Storage) : bool :=
  let current := getAppointments ls in
  negb (existsb (λ apt,
    if match excludeId with
       | Some i => negb (bool_decide (i = [])) && has_id i apt
       | None => false
       end
    then false
    else
      let aptStart := time_of (obj_get apt (js "start")) in
      let aptEnd := time_of (obj_get apt (js "end")) in
      let checkStart := getTime start in
      let checkEnd := getTime end_ in
      overlaps checkStart checkEnd aptStart aptEnd) current).
End storageService.

(** ** [components/BookingModal.tsx]: the submit handler *)

(** The props the handler reads. *)
Record BookingModalProps := {
  currentUserRole : Role;
  existingAppointment : option Appointment;
}.

(** The state of the form.  [duration] is a whole number of minutes,
    as the options of the selector, the oracle's integer and the
    length of an appointment made with this form are. *)
Record FormState := {
  form_title : jstring;
  form_name : jstring;
  form_date : jstring;
  form_time : jstring;
  form_duration : Z;
}.

(** What the handler draws from its environment: the clock
    ([new Date()]) and [crypto.randomUUID()]. *)
Record Env := {
  now : Z;
  randomUUID : jstring;
}.

(** What the handler leaves: the error shown ([''] when there is
    none), the storage, and whether [onSuccess] and [onClose] ran. *)
Record Outcome := {
  error : jstring;
  storage : Storage;
  closed : bool;
}.

Definition isBookingOpenSlot (props : BookingModalProps) : bool :=
  match existingAppointment props with
  | Some a => bool_decide (type a = availability)
  | None => false
  end.

Section BookingModal.
Context `{Platform}.

(** [new Date(`${date}T${time}`)] *)
Definition startDateTime (f : FormState) : Date :=
  TimeClip (Date_parse (form_date f ++ js "T" ++ form_time f)).

(** [new Date(startDateTime.getTime() + duration * 60000)] *)
Definition endDateTime (f : FormState) : Date :=
  TimeClip (num_add (getTime (startDateTime f)) (Some (form_duration f * 60000))).

(** The [type] the handler determines: ['meeting'] unless the owner
    creates a new slot.  The second test assigns what is already
    there. *)
Definition submit_type (props : BookingModalProps) : AppointmentType :=
  if bool_decide (currentUserRole props = owner)
     && bool_decide (existingAppointment props = None)
  then availability
  else if bool_decide (currentUserRole props = colleague)
          && isBookingOpenSlot props
  then meeting
  else meeting.

(** The appointment the handler builds. *)
Definition submit_appointment (props : BookingModalProps) (f : FormState)
    (env : Env) : Appointment :=
  {| id := match existingAppointment props with
           | Some a => id a
           | None => randomUUID env
           end;
     title := form_title f;
     start := startDateTime f;
     end_ := endDateTime f;
     requesterName := form_name f;
     description := None;
     type := submit_type props |}.

Definition handleSubmit (props : BookingModalProps) (f : FormState)
    (env : Env) (ls : Storage) : Outcome :=
  if bool_decide (form_date f = []) || bool_decide (form_time f = [])
     || bool_decide (form_title f = []) || bool_decide (form_name f = [])
  then {| error := js "All fields are required."; storage := ls; closed := false |}
  else if num_lt (getTime (startDateTime f)) (Some (now env))
  then {| error := js "Cannot book in the past."; storage := ls; closed := false |}
  else
    let isAvailable :=
      checkAvailability (startDateTime f) (endDateTime f)
        (id <$> existingAppointment props) ls in
    if negb isAvailable
    then {| error := js "This time slot overlaps with an existing appointment.";
            storage := ls; closed := false |}
    else
      let appointment := submit_appointment props f env in
      {| error := []; storage := (saveAppointment appointment ls).2;
         closed := true |}.
End BookingModal.

(** ** An engine for the examples

    A platform in the UTC time zone: a date and time without offset,
    [YYYY-MM-DDTHH:mm], is the same instant as with [:00.000Z]; the
    engine knows no other format, throws on the conversions left to
    it, and writes whole numbers in decimal. *)

Definition utc_Date_parse (s : jstring) : Date :=
  Date_parse_iso (s ++ js ":00.000Z").

Definition utc_Number_toString (m e : Z) : jstring :=
  (if bool_decide (m < 0) then js "-" else [])
  ++ decimal_fuel (Z.to_nat (Z.abs m) + 1) (Z.abs m)
  ++ (if bool_decide (e = 0) then [] else js "e" ++ (if bool_decide (e < 0) then js "-" else [])
        ++ decimal_fuel (Z.to_nat (Z.abs e) + 1) (Z.abs e)).

Definition utc_platform : Platform :=
  {| Date_parse_impl := utc_Date_parse;
     Date_of_other := λ _, None;
     Number_toString := utc_Number_toString |}.

(** ** Notions used in the statements and proofs *)

(** The split of a day of the era into year, month and day is checked
    on each of the 146097 days of an era. *)
Definition doe_ok (doe : Z) : bool :=
  let '(yoe, m, d) := civil_of_doe doe in
  (0 <=? yoe) && (yoe <? 400) && (1 <=? m) && (m <=? 12)
  && (1 <=? d) && (d <=? 31) && (doe_of_civil yoe m d =? doe).

Fixpoint all_from (p : Z → bool) (n : nat) (z : Z) : bool :=
  match n with
  | O => true
  | S n' => p z && all_from p n' (z + 1)
  end.

(** Keys in the order in which an engine lists them. *)
Fixpoint enumeration_order (ks : list jstring) : Prop :=
  match ks with
  | [] => True
  | k :: r => Forall (λ k', goes_before k' k = false) r ∧ enumeration_order r
  end.

(** The values [JSON.parse] gives back as they were written: built
    from [null], booleans, strings, arrays and objects whose keys are
    distinct and in the order of listing. *)
Inductive clean : value → Prop :=
  | clean_null : clean VNull
  | clean_bool b : clean (VBool b)
  | clean_str s : clean (VStr s)
  | clean_arr l : Forall clean l → clean (VArr l)
  | clean_obj o :
      NoDup o.*1 → enumeration_order o.*1 → Forall (λ kv, clean kv.2) o →
      clean (VObj o).

(** A bound on the nesting of parser calls a value needs. *)
Fixpoint value_size (v : value) : nat :=
  match v with
  | VArr l => S (list_sum ((λ x, S (value_size x)) <$> l))
  | VObj o => S (list_sum ((λ kv, S (value_size kv.2)) <$> o))
  | _ => 1
  end.

Section stringify_members.
Context `{Platform}.

(** The texts of the members of an object in [stringify_value]. *)
Fixpoint stringify_members (o : object) : list jstring :=
  match o with
  | [] => []
  | (k, VUndefined) :: o' => stringify_members o'
  | (k, v) :: o' =>
      (QuoteJSONString k ++ 58%N :: stringify_value v) :: stringify_members o'
  end.
End stringify_members.

(** The character a clean value's text starts with: neither white
    space nor a closing bracket. *)
Definition opens (c : N) : Prop :=
  c = 110%N ∨ c = 116%N ∨ c = 102%N ∨ c = 34%N ∨ c = 91%N ∨ c = 123%N.

(** A value is read back: the parser, given fuel for its size, returns
    it from its text and leaves what follows. *)
Definition reads_back `{Platform} (v : value) : Prop :=
  clean v → ∀ f rest, (value_size v ≤ f)%nat →
  parse_value f (stringify_value v ++ rest) = Some (v, rest).


(** The three parsers consume at least one character. *)
Definition consumes {A} (parse : jstring → option (A * jstring)) : Prop :=
  ∀ s x r, parse s = Some (x, r) → (length r < length s)%nat.

(** With fuel [n] enough for the text, any larger fuel [f] gives the
    same result. *)
Definition settled {A} (parse : nat → jstring → option (A * jstring))
    (slack : nat) (n : nat) : Prop :=
  ∀ s f, (2 * length s + slack ≤ n)%nat → (n ≤ f)%nat → parse f s = parse n s.

(** What a stored timestamp is after a reload: an Invalid Date is
    written as [null], which [new Date] reads as the epoch. *)
Definition reload_date (d : Date) : Date :=
  match d with
  | Some t => Some t
  | None => Some 0
  end.

Definition reload (a : Appointment) : Appointment :=
  {| id := id a; title := title a; start := reload_date (start a);
     end_ := reload_date (end_ a); requesterName := requesterName a;
     description := description a; type := type a |}.

Definition valid_times (a : Appointment) : Prop :=
  valid_date (start a) ∧ valid_date (end_ a).

(** The time value of a [Date] object: [NaN] or in range. *)
Definition wf_date (d : Date) : Prop := TimeClip d = d.

Definition wf_times (a : Appointment) : Prop :=
  wf_date (start a) ∧ wf_date (end_ a).

(** A value that [new Date] converts without calling into the
    platform. *)
Definition plain (v : value) : Prop :=
  match v with
  | VUndefined | VNull | VBool _ | VStr _ => True
  | _ => False
  end.

(** The overlap test of [checkAvailability] on a candidate range and a
    stored record. *)
Definition overlaps_record (start end_ : Date) (apt : object) : bool :=
  overlaps (getTime start) (getTime end_)
    (time_of (obj_get apt (js "start"))) (time_of (obj_get apt (js "end"))).

(** The first two checks of [handleSubmit]: every field is filled in,
    and the start is not in the past. *)
Definition filled (f : FormState) : Prop :=
  form_date f ≠ [] ∧ form_time f ≠ [] ∧ form_title f ≠ [] ∧ form_name f ≠ [].

Definition overlap_message : jstring :=
  js "This time slot overlaps with an existing appointment.".

Section notions.
Context `{Platform}.

Definition not_past (f : FormState) (env : Env) : Prop :=
  num_lt (getTime (startDateTime f)) (Some (now env)) = false.

(** A payload that [serialize] wrote for appointments with valid
    timestamps. *)
Definition well_formed_payload (text : jstring) : Prop :=
  ∃ apts, Forall valid_times apts ∧ text = serialize (to_object <$> apts).
End notions.

(** ** Example data

    [jsq] writes a text with an apostrophe for each double quote. *)

Definition jsq (s : string) : jstring :=
  (λ c, if bool_decide (c = 39%N) then 34%N else c) <$> js s.

(** *** A store

    Tuesday 1 January 2030 on the UTC engine: an open slot from 10:00
    to 10:30 and a meeting from 11:00 to 11:30. *)

Definition ex_open : Appointment :=
  {| id := js "a1"; title := js "Open for Booking";
     start := Some 1893492000000; end_ := Some 1893493800000;
     requesterName := js "Me"; description := None; type := availability |}.

Definition ex_meeting : Appointment :=
  {| id := js "m1"; title := js "Standup";
     start := Some 1893495600000; end_ := Some 1893497400000;
     requesterName := js "Bob"; description := Some (js "daily");
     type := meeting |}.

Definition ex_store : Storage :=
  <[LOCAL_STORAGE_KEY :=
      @serialize utc_platform (to_object <$> [ex_open; ex_meeting])]> ∅.

(** A meeting on top of the open slot, under another id. *)
Definition ex_clash : Appointment :=
  {| id := js "c1"; title := js "Clash";
     start := start ex_open; end_ := end_ ex_open;
     requesterName := js "Eve"; description := None; type := meeting |}.

(** The open slot booked: the same id, now a meeting. *)
Definition ex_booked : Appointment :=
  {| id := js "a1"; title := js "Code review";
     start := start ex_open; end_ := end_ ex_open;
     requesterName := js "Bob"; description := None; type := meeting |}.

(** The clock stands at 31 December 2029, 08:26:40. *)
Definition ex_env : Env :=
  {| now := 1893400000000; randomUUID := js "fresh-uuid" |}.

(** A form for 10:00, thirty minutes. *)
Definition ex_form : FormState :=
  {| form_title := js "Code review"; form_name := js "Bob";
     form_date := js "2030-01-01"; form_time := js "10:00";
     form_duration := 30 |}.


(** The owner's edit of the open slot: a new label, the same time. *)
Definition ex_edit : FormState :=
  {| form_title := js "Office hours"; form_name := js "Me";
     form_date := js "2030-01-01"; form_time := js "10:00";
     form_duration := 30 |}.

(** The owner's form that opens the slot at 10:00, and the colleague's
    that books it for forty-five minutes. *)
Definition ex_opening : FormState :=
  {| form_title := js "Open for Booking"; form_name := js "Me";
     form_date := js "2030-01-01"; form_time := js "10:00";
     form_duration := 30 |}.

Definition ex_longer : FormState :=
  {| form_title := js "Code review"; form_name := js "Bob";
     form_date := js "2030-01-01"; form_time := js "10:00";
     form_duration := 45 |}.

(** A form for 10:15 to 10:45. *)
Definition ex_late : FormState :=
  {| form_title := js "Pairing"; form_name := js "Eve";
     form_date := js "2030-01-01"; form_time := js "10:15";
     form_duration := 30 |}.

(** *** A cell with two meetings

    The owner opens a slot at 10:00 with a duration of minus thirty
    minutes, as a suggestion can bring it into the form; a colleague
    books that slot, with the duration that the modal takes from it;
    the owner opens a second slot at 10:00, for thirty minutes. *)









(** ** Notions for the further properties *)

(** What [saveAppointment] does to a collection, on appointments
    rather than on their objects. *)
Definition upsert (a : Appointment) (apts : list Appointment) : list Appointment :=
  match list_find (λ x, id x = id a) apts with
  | Some (index, _) => <[index := a]> apts
  | None => apts ++ [a]
  end.

(** No id is borne by two records. *)
Definition unique_ids (l : list object) : Prop :=
  ∀ i, (length (filter (λ x, has_id i x) l) ≤ 1)%nat.

(** No two appointments with different ids overlap, by the test of
    [checkAvailability]. *)
Definition pairwise_free (apts : list Appointment) : Prop :=
  ∀ x y, x ∈ apts → y ∈ apts → id x ≠ id y →
    overlaps (start x) (end_ x) (start y) (end_ y) = false.

(** A schedule as the interface means to keep it: valid timestamps,
    one appointment per id, no double booking. *)
Definition consistent (apts : list Appointment) : Prop :=
  Forall valid_times apts ∧ NoDup (id <$> apts) ∧ pairwise_free apts.

(** ** [services/geminiService.ts]

    The code units that [String.prototype.trim] removes: the white
    space and the line terminators of the language. *)
Definition is_white_space (c : N) : bool :=
  bool_decide (c ∈ [9; 10; 11; 12; 13; 32; 160; 5760; 8232; 8233; 8239;
                    8287; 12288; 65279]%N)
  || (bool_decide (8192 ≤ c)%N && bool_decide (c ≤ 8202)%N).

Fixpoint trimStart (s : jstring) : jstring :=
  match s with
  | c :: r => if is_white_space c then trimStart r else s
  | [] => []
  end.

Definition trim (s : jstring) : jstring :=
  reverse (trimStart (reverse (trimStart s))).

(** [process.env.API_KEY]: [undefined] or a string.  The client that
    [getAiClient] makes is known by its key; [None] is [null]. *)
Definition getAiClient (API_KEY : option jstring) : option jstring :=
  match API_KEY with
  | None => None
  | Some apiKey =>
      if bool_decide (apiKey = []) || bool_decide (trim apiKey = []) then None
      else Some apiKey
  end.

(** What [ai.models.generateContent] comes to: the call is rejected
    (or something else throws inside the [try]), or there is a
    response, with or without a [text]. *)
Inductive Response :=
  | Rejected
  | Replied (text : option jstring).

(** The service, asked with the prompt; the date goes into the
    system instruction. *)
Abbreviation Service := (jstring → Date → Response).

(** [null] is [VNull].  What [JSON.parse] returns is returned as it
    is: the cast to [GeminiBookingSuggestion] checks nothing. *)
Definition parseBookingRequest (API_KEY : option jstring)
    (generateContent : Service) (prompt : jstring) (today : Date) : value :=
  match getAiClient API_KEY with
  | None => VNull
  | Some _ =>
      match generateContent prompt today with
      | Rejected => VNull
      | Replied None => VNull
      | Replied (Some text) =>
          if bool_decide (text = []) then VNull
          else match JSON_parse text with
               | Some v => v
               | None => VNull
               end
      end
  end.

(** ** [components/AIScheduler.tsx]

    [ToBoolean].  The number [m * 10^e] of a JSON text is zero when
    [m] is, or when it is at most [2^-1075] in magnitude and rounds
    to zero. *)
Definition ToBoolean (v : value) : bool :=
  match v with
  | VUndefined | VNull => false
  | VBool b => b
  | VNum m e =>
      negb (bool_decide (m = 0))
      && (bool_decide (0 ≤ e) || bool_decide (10 ^ (- e) < Z.abs m * 2 ^ 1075))
  | VStr s => negb (bool_decide (s = []))
  | VDate _ | VArr _ | VObj _ => true
  end.

(** [v.k] for a value that is not [null] or [undefined] and a key that
    no prototype defines, as [date] and [startTime]: an own property
    of an object, [undefined] for the rest. *)
Definition get_property (v : value) (k : jstring) : value :=
  match v with
  | VObj o => obj_get o k
  | _ => VUndefined
  end.

Definition hasApiKey (API_KEY : option jstring) : bool :=
  match API_KEY with
  | Some apiKey => negb (bool_decide (apiKey = []))
  | None => false
  end.

(** The state of the component; [ai_error] is [null] or a message. *)
Record AISchedulerState := {
  prompt : jstring;
  isProcessing : bool;
  ai_error : option jstring;
}.

Definition no_key_message : jstring :=
  js "AI features are disabled because no API Key was provided.".

Definition unclear_message : jstring :=
  js "I couldn't quite understand that date or time. Please try being more specific (e.g., 'Friday at 2pm').".

Definition unavailable_message : jstring :=
  js "AI service is currently unavailable. Please check your API key.".

(** The handler, run to its end at the time [now]: the state it
    leaves and the suggestion it has passed to [onSuggestion], if it
    has called it.  [onSuggestion v] is [false] when the call throws. *)
Definition handleSmartSchedule (API_KEY : option jstring)
    (generateContent : Service) (onSuggestion : value → bool) (now : Z)
    (st : AISchedulerState) : AISchedulerState * option value :=
  if bool_decide (trim (prompt st) = []) then (st, None)
  else
    let suggestion :=
      parseBookingRequest API_KEY generateContent (prompt st) (Some now) in
    if ToBoolean suggestion
       && ToBoolean (get_property suggestion (js "date"))
       && ToBoolean (get_property suggestion (js "startTime"))
    then
      if onSuggestion suggestion
      then ({| prompt := []; isProcessing := false; ai_error := None |},
            Some suggestion)
      else ({| prompt := prompt st; isProcessing := false;
               ai_error := Some unavailable_message |}, Some suggestion)
    else
      ({| prompt := prompt st; isProcessing := false;
          ai_error := Some (if negb (hasApiKey API_KEY) then no_key_message
                            else unclear_message) |}, None).

(** ** [components/BookingModal.tsx]: the effect that fills the form

    [s.split(c)[0]]: the part of [s] before the first [c]. *)
Fixpoint before_first (c : N) (s : jstring) : jstring :=
  match s with
  | x :: r => if bool_decide (x = c) then [] else x :: before_first c r
  | [] => []
  end.

(** [initialDate.toISOString().split('T')[0]]; [None] when
    [toISOString] throws a [RangeError], as it does on an Invalid Date. *)
Definition date_field (initialDate : Date) : option jstring :=
  t ← initialDate; Some (before_first 84 (toISOString t)).

(** The props that the effect reads besides those of the handler.
    [None] is a prop that is not passed, or [undefined]. *)
Record ModalInit := {
  isOpen : bool;
  initialDate : option Date;
  initialTime : option jstring;
  initialDuration : option Z;
  initialTitle : option jstring;
}.

(** [(end.getTime() - start.getTime()) / 60000] when it is a whole
    number, as for every appointment made with the form; [None] when it
    is a fraction or [NaN], which the duration of [FormState] does not
    hold. *)
Definition whole_minutes (a : Appointment) : option Z :=
  match start a, end_ a with
  | Some s, Some e =>
      if bool_decide ((e - s) `mod` 60000 = 0) then Some ((e - s) / 60000)
      else None
  | _, _ => None
  end.

(** What the effect leaves: it throws; or the state of the form and of
    the error; or a state whose duration is not a whole number of
    minutes. *)
Inductive EffectOutcome :=
  | EffectThrows
  | EffectState (f : FormState) (err : jstring)
  | EffectFraction.

(** The effect, run on the state [f], [err]. *)
Definition syncState (props : BookingModalProps) (init : ModalInit)
    (f : FormState) (err : jstring) : EffectOutcome :=
  if isOpen init then
    match match initialDate init with
          | Some d => date_field d
          | None => Some (form_date f)
          end with
    | None => EffectThrows
    | Some date =>
        let time :=
          match initialTime init with
          | Some t => if bool_decide (t = []) then form_time f else t
          | None => form_time f
          end in
        match existingAppointment props with
        | Some existing =>
            match whole_minutes existing with
            | Some duration =>
                if bool_decide (currentUserRole props = colleague)
                   && isBookingOpenSlot props
                then EffectState
                       {| form_title := []; form_name := []; form_date := date;
                          form_time := time; form_duration := duration |} []
                else EffectState
                       {| form_title := title existing;
                          form_name := requesterName existing;
                          form_date := date; form_time := time;
                          form_duration := duration |} []
            | None => EffectFraction
            end
        | None =>
            let initialTitle := default [] (initialTitle init) in
            let initialDuration := default 30 (initialDuration init) in
            EffectState
              {| form_title :=
                   if bool_decide (initialTitle = [])
                   then (if bool_decide (currentUserRole props = owner)
                         then js "Open for Booking" else [])
                   else initialTitle;
                 form_name :=
                   if bool_decide (currentUserRole props = owner)
                   then js "Me" else [];
                 form_date := date; form_time := time;
                 form_duration :=
                   if bool_decide (initialDuration = 0) then form_duration f
                   else initialDuration |} []
        end
    end
  else EffectState f err.

(** ** Local time

    The offset of local time, [LocalTZA(t, isUTC)] of the language
    definition, is the environment's. *)
Class TimeZone := {
  LocalTZA : Z → bool → Z;
}.

Definition msPerHour : Z := 3600000.
Definition msPerMinute : Z := 60000.

Definition HourFromTime (t : Z) : Z := (t / msPerHour) `mod` 24.
Definition MinFromTime (t : Z) : Z := (t / msPerMinute) `mod` 60.

Section local_time.
Context `{TimeZone}.

Definition LocalTime (t : Z) : Z := t + LocalTZA t true.
Definition UTC (t : Z) : Z := t - LocalTZA t false.

(** date-fns [startOfDay]: a copy of the date with [setHours(0, 0, 0, 0)]. *)
Definition startOfDay (d : Date) : Date :=
  t ← d; TimeClip (Some (UTC (LocalTime t / msPerDay * msPerDay))).

(** date-fns [isSameDay]: [+startOfDay(a) === +startOfDay(b)]. *)
Definition isSameDay (a b : Date) : bool :=
  match startOfDay a, startOfDay b with
  | Some x, Some y => bool_decide (x = y)
  | _, _ => false
  end.

(** date-fns [format(d, 'HH:mm')]: the local hours and minutes, two
    digits each; [None] when it throws a [RangeError], on an Invalid
    Date. *)
Definition format_HH_mm (d : Date) : option jstring :=
  t ← d;
  Some (pad 2 (HourFromTime (LocalTime t)) ++ js ":"
        ++ pad 2 (MinFromTime (LocalTime t))).

(** ** [App.tsx]: the cells of the calendar

    The appointment that [renderSlot] shows in the cell of [day] and
    [time]: the first that starts there.  The second test is not
    reached on an Invalid Date. *)
Definition cell_appointment (appointments : list Appointment) (day : Date)
    (time : jstring) : option Appointment :=
  snd <$> list_find
            (λ apt, isSameDay (start apt) day
                    && bool_decide (format_HH_mm (start apt) = Some time))
            appointments.
End local_time.

(** [constants.ts] *)
Record Hours := { hours_start : Z; hours_end : Z }.

Definition WORKING_HOURS : Hours := {| hours_start := 8; hours_end := 22 |}.

(** [i.toString()] for an integer. *)
Definition Z_toString (i : Z) : jstring :=
  (if bool_decide (i < 0) then js "-" else [])
  ++ decimal_fuel (Z.to_nat (Z.abs i) + 1) (Z.abs i).

(** [s.padStart(n, '0')] *)
Definition padStart0 (n : nat) (s : jstring) : jstring :=
  replicate (n - length s) 48%N ++ s.

(** The labels of the rows: [n] turns of the loop from [i]. *)
Fixpoint slots_from (n : nat) (i : Z) : list jstring :=
  match n with
  | O => []
  | S n' =>
      (padStart0 2 (Z_toString i) ++ js ":00")
      :: (padStart0 2 (Z_toString i) ++ js ":30")
      :: slots_from n' (i + 1)
  end.

Definition timeSlots : list jstring :=
  slots_from (Z.to_nat (hours_end WORKING_HOURS - hours_start WORKING_HOURS))
    (hours_start WORKING_HOURS).

(** The calendar date of a day number, as [toISOString] writes it. *)
Definition iso_date (day : Z) : jstring :=
  let '(y, m, d) := civil_from_days day in
  year_string y ++ js "-" ++ pad 2 m ++ js "-" ++ pad 2 d.

(** A time zone at a fixed offset from UTC. *)
Definition fixed_zone (offset : Z) : TimeZone := {| LocalTZA := λ _ _, offset |}.

Definition ex_invalid : Appointment :=
  {| id := js "n1"; title := js "Lost"; start := NaN; end_ := Some 1893499200000;
     requesterName := js "Eve"; description := None; type := meeting |}.

(** A store whose payload is not JSON text. *)
Definition ex_garbled : Storage := <[LOCAL_STORAGE_KEY := js "not json"]> ∅.

(** A form whose time is no time of day. *)
Definition ex_unparsable : FormState :=
  {| form_title := js "Sync"; form_name := js "Eve";
     form_date := js "2030-01-01"; form_time := js "soon";
     form_duration := 30 |}.

(** The assistant: a prompt, a service that answers every prompt with
    one text, and a parent that takes every suggestion. *)
Definition ex_prompt : AISchedulerState :=
  {| prompt := js "Book 45 mins next Tuesday at 10 AM";
     isProcessing := false; ai_error := None |}.

Definition ex_reply : jstring :=
  jsq "{'date':'2030-01-01','startTime':'10:00','durationMinutes':45}".

Definition ex_service : Service := λ _ _, Replied (Some ex_reply).

Definition ex_suggestion : object :=
  [(js "date", VStr (js "2030-01-01")); (js "startTime", VStr (js "10:00"));
   (js "durationMinutes", VNum 45 0)].

(** The modal as a click on the cell of 1 January 2030, 10:00 opens
    it, on an empty form: in UTC, and two hours ahead of it. *)
Definition ex_blank : FormState :=
  {| form_title := []; form_name := []; form_date := []; form_time := [];
     form_duration := 30 |}.

Definition ex_init : ModalInit :=
  {| isOpen := true; initialDate := Some (Some 1893456000000);
     initialTime := Some (js "10:00"); initialDuration := None;
     initialTitle := None |}.

Definition ex_init_ahead : ModalInit :=
  {| isOpen := true; initialDate := Some (Some 1893448800000);
     initialTime := Some (js "10:00"); initialDuration := None;
     initialTitle := None |}.

Definition ex_colleague_books : BookingModalProps :=
  {| currentUserRole := colleague; existingAppointment := Some ex_open |}.

(** The form as the effect fills it for the open slot, and with a
    title and a name typed in. *)
Definition ex_prefilled : FormState :=
  {| form_title := []; form_name := []; form_date := js "2030-01-01";
     form_time := js "10:00"; form_duration := 30 |}.

(** Two hours ahead of UTC the form is filled with the day before. *)
Definition ex_prefilled_ahead : FormState :=
  {| form_title := []; form_name := []; form_date := js "2029-12-31";
     form_time := js "10:00"; form_duration := 30 |}.

Definition ex_typed : FormState :=
  {| form_title := js "Code review"; form_name := js "Bob";
     form_date := js "2030-01-01"; form_time := js "10:00";
     form_duration := 30 |}.

(** * Properties *)

(** ** Dates and their ISO form *)

Lemma read_digits_snoc k : ∀ acc s,
  read_digits (S k) acc s =
  '(a, r) ← read_digits k acc s;
  match r with
  | c :: r' => d ← digit_val c; Some (10 * a + d, r')
  | [] => None
  end.
Proof.
  induction k as [|k IH]; intros acc s.
  - simpl. destruct s as [|c r]; [done|]. by destruct (digit_val c).
  - change (read_digits (S (S k)) acc s) with
      (match s with
       | c :: r => d ← digit_val c; read_digits (S k) (10 * acc + d) r
       | [] => None
       end).
    destruct s as [|c r]; [done|]. simpl.
    destruct (digit_val c) as [d|]; [|done]. simpl. apply IH.
Qed.

Lemma digit_val_digit d : 0 ≤ d < 10 → digit_val (digit d) = Some d.
Proof.
  intros Hd. unfold digit_val, digit.
  rewrite !bool_decide_eq_true_2 by lia. simpl. f_equal. lia.
Qed.

Lemma read_digits_pad k : ∀ n acc r,
  0 ≤ n < 10 ^ Z.of_nat k →
  read_digits k acc (pad k n ++ r) = Some (acc * 10 ^ Z.of_nat k + n, r).
Proof.
  induction k as [|k IH]; intros n acc r Hn.
  - simpl in *. f_equal. f_equal. lia.
  - rewrite read_digits_snoc. cbn [pad]. rewrite <- app_assoc.
    rewrite Nat2Z.inj_succ, Z.pow_succ_r in Hn by lia.
    rewrite IH by (split; [apply Z.div_pos; lia | apply Z.div_lt_upper_bound; lia]).
    simpl. rewrite digit_val_digit by (apply Z.mod_pos_bound; lia). simpl.
    f_equal. f_equal. rewrite Nat2Z.inj_succ, Z.pow_succ_r by lia.
    pose proof (Z.div_mod n 10). lia.
Qed.

Lemma all_from_spec p n : ∀ z i,
  all_from p n z = true → z ≤ i < z + Z.of_nat n → p i = true.
Proof.
  induction n as [|n IH]; intros z i Hall Hi; [lia|].
  simpl in Hall. apply andb_true_iff in Hall as [Hz Hrest].
  destruct (decide (i = z)) as [->|Hne]; [done|].
  apply (IH (z + 1)); [done|lia].
Qed.

Lemma doe_ok_era : all_from doe_ok (Z.to_nat 146097) 0 = true.
Proof. vm_compute. reflexivity. Qed.

Lemma civil_of_doe_inv doe :
  0 ≤ doe < 146097 →
  ∃ yoe m d, civil_of_doe doe = (yoe, m, d)
    ∧ 0 ≤ yoe < 400 ∧ 1 ≤ m ≤ 12 ∧ 1 ≤ d ≤ 31 ∧ doe_of_civil yoe m d = doe.
Proof.
  intros Hdoe.
  pose proof (all_from_spec _ _ 0 doe doe_ok_era) as Hok.
  rewrite Z2Nat.id in Hok by lia. specialize (Hok ltac:(lia)).
  unfold doe_ok in Hok.
  destruct (civil_of_doe doe) as [[yoe m] d].
  exists yoe, m, d. split; [done|].
  repeat (apply andb_true_iff in Hok as [Hok ?]). lia.
Qed.

Lemma civil_from_days_inv z :
  ∃ y m d, civil_from_days z = (y, m, d)
    ∧ 1 ≤ m ≤ 12 ∧ 1 ≤ d ≤ 31 ∧ days_from_civil y m d = z
    ∧ 400 * ((z + 719468) / 146097) ≤ y ≤ 400 * ((z + 719468) / 146097) + 400.
Proof.
  unfold civil_from_days.
  destruct (civil_of_doe_inv ((z + 719468) `mod` 146097))
    as (yoe & m & d & -> & Hy & Hm & Hd & Hdoe).
  { apply Z.mod_pos_bound. lia. }
  eexists _, m, d. split; [reflexivity|]. split; [done|]. split; [done|].
  set (era := (z + 719468) / 146097) in *.
  assert (Hera : (yoe + era * 400) / 400 = era ∧ (yoe + era * 400) `mod` 400 = yoe).
  { split.
    - rewrite Z.div_add by lia. rewrite Z.div_small by lia. lia.
    - rewrite Z.mod_add by lia. apply Z.mod_small. lia. }
  destruct Hera as [Hq Hr]. split.
  - unfold days_from_civil. case_bool_decide.
    + replace (yoe + era * 400 + 1 - 1) with (yoe + era * 400) by lia.
      rewrite Hq, Hr, Hdoe. pose proof (Z.div_mod (z + 719468) 146097).
      unfold era. lia.
    + rewrite Hq, Hr, Hdoe. pose proof (Z.div_mod (z + 719468) 146097).
      unfold era. lia.
  - case_bool_decide; lia.
Qed.

Lemma read_year_string y r :
  - 999999 ≤ y ≤ 999999 → read_year (year_string y ++ r) = Some (y, r).
Proof.
  intros Hy. unfold year_string.
  destruct (bool_decide (0 ≤ y) && bool_decide (y ≤ 9999)) eqn:Hsmall.
  - apply andb_true_iff in Hsmall as [H0 H9].
    apply bool_decide_eq_true_1 in H0. apply bool_decide_eq_true_1 in H9.
    pose proof (read_digits_pad 4 y 0 r) as Hread.
    assert (Hpad : ∃ c' s', pad 4 y ++ r = c' :: s' ∧ (48 ≤ c' ≤ 57)%N).
    { cbn [pad app]. eexists _, _. split; [reflexivity|].
      unfold digit.
      pose proof (Z.mod_pos_bound (y / 10 / 10 / 10) 10). lia. }
    destruct Hpad as (c' & s' & Heq & Hc').
    unfold read_year. rewrite Heq.
    rewrite !bool_decide_eq_false_2 by lia. rewrite <- Heq.
    rewrite Hread by (simpl; lia). repeat f_equal; lia.
  - assert (Hout : y < 0 ∨ 9999 < y).
    { apply andb_false_iff in Hsmall as [H|H];
        apply bool_decide_eq_false_1 in H; lia. }
    destruct (bool_decide (y < 0)) eqn:Hneg.
    + apply bool_decide_eq_true_1 in Hneg.
      change (read_year ((js "-" ++ pad 6 (Z.abs y)) ++ r))
        with ('(y', r') ← read_digits 6 0 (pad 6 (Z.abs y) ++ r); Some (- y', r')).
      rewrite read_digits_pad by (simpl; lia). simpl. repeat f_equal; lia.
    + apply bool_decide_eq_false_1 in Hneg.
      change (read_year ((js "+" ++ pad 6 (Z.abs y)) ++ r))
        with (read_digits 6 0 (pad 6 (Z.abs y) ++ r)).
      rewrite read_digits_pad by (simpl; lia). repeat f_equal; lia.
Qed.

Lemma read_digits_pad0 k n r :
  0 ≤ n < 10 ^ Z.of_nat k → read_digits k 0 (pad k n ++ r) = Some (n, r).
Proof. intros Hn. by rewrite read_digits_pad. Qed.

(** Literal strings are evaluated to their code units. *)
Ltac eval_js :=
  repeat match goal with
         | |- context [js ?s] =>
             let v := eval vm_compute in (js s) in change (js s) with v
         end.

Lemma expect_hit c r : expect c (c :: r) = Some r.
Proof. unfold expect. by rewrite bool_decide_eq_true_2. Qed.

Local Ltac step :=
  cbn -[pad read_digits expect Z.mul Z.add Z.div Z.modulo Z.pow];
  rewrite ?expect_hit;
  cbn -[pad read_digits expect Z.mul Z.add Z.div Z.modulo Z.pow].

Lemma iso_fields_toISOString t :
  - maxTime ≤ t ≤ maxTime → iso_fields (toISOString t) = Some t.
Proof.
  intros Ht. unfold toISOString.
  destruct (civil_from_days_inv (t / msPerDay))
    as (y & m & d & -> & Hm & Hd & Hdays & Hy).
  set (tod := t `mod` msPerDay).
  assert (Htod : 0 ≤ tod < msPerDay) by (apply Z.mod_pos_bound; done).
  unfold msPerDay, maxTime in *.
  assert (Hyr : - 999999 ≤ y ≤ 999999).
  { revert Hy. generalize (t / 86400000) (Z.div_mod t 86400000).
    intros q Hq Hy.
    assert (- 100000001 ≤ q ≤ 100000000) by (pose proof (Z.mod_pos_bound t 86400000); lia).
    pose proof (Z.div_mod (q + 719468) 146097).
    pose proof (Z.mod_pos_bound (q + 719468) 146097). lia. }
  unfold iso_fields. eval_js.
  repeat rewrite <- app_assoc.
  rewrite read_year_string by done. step.
  rewrite read_digits_pad0 by (simpl; lia). step.
  rewrite read_digits_pad0 by (simpl; lia). step.
  assert (H1 : 0 ≤ tod / 3600000 < 24)
    by (split; [apply Z.div_pos; lia | apply Z.div_lt_upper_bound; lia]).
  assert (H2 : 0 ≤ (tod / 60000) `mod` 60 < 60) by (apply Z.mod_pos_bound; lia).
  assert (H3 : 0 ≤ (tod / 1000) `mod` 60 < 60) by (apply Z.mod_pos_bound; lia).
  assert (H4 : 0 ≤ tod `mod` 1000 < 1000) by (apply Z.mod_pos_bound; lia).
  rewrite read_digits_pad0 by (simpl; lia). step.
  rewrite read_digits_pad0 by (simpl; lia). step.
  rewrite read_digits_pad0 by (simpl; lia). step.
  rewrite read_digits_pad0 by (simpl; lia). step.
  f_equal. rewrite Hdays. unfold msPerDay.
  assert (Ht' : t = 86400000 * (t / 86400000) + tod)
    by (apply Z.div_mod; lia).
  revert Ht'. generalize (t / 86400000). clearbody tod. intros q Hq.
  clear - Hq Htod. Z.div_mod_to_equations. lia.
Qed.

Lemma Date_parse_iso_toISOString t :
  - maxTime ≤ t ≤ maxTime → Date_parse_iso (toISOString t) = Some t.
Proof.
  intros Ht. unfold Date_parse_iso. rewrite iso_fields_toISOString by done.
  simpl. unfold in_time_range.
  rewrite !bool_decide_eq_true_2 by (done || lia). done.
Qed.

(** ** Quoted strings are read back *)

Lemma hex_val_hex_digit d : (d < 16)%N → hex_val (hex_digit d) = Some d.
Proof.
  intros Hd. unfold hex_digit, hex_val.
  destruct (bool_decide (d < 10)%N) eqn:Hlow;
    [apply bool_decide_eq_true_1 in Hlow | apply bool_decide_eq_false_1 in Hlow].
  - rewrite (bool_decide_eq_true_2 (48 ≤ 48 + d)%N) by lia.
    rewrite (bool_decide_eq_true_2 (48 + d ≤ 57)%N) by lia.
    cbn [andb]. f_equal. lia.
  - rewrite (bool_decide_eq_true_2 (48 ≤ 87 + d)%N) by lia.
    rewrite (bool_decide_eq_false_2 (87 + d ≤ 57)%N) by lia.
    rewrite (bool_decide_eq_true_2 (97 ≤ 87 + d)%N) by lia.
    rewrite (bool_decide_eq_true_2 (87 + d ≤ 102)%N) by lia.
    cbn [andb]. f_equal. lia.
Qed.

Lemma parse_chars_literal c r :
  c ≠ 34%N → c ≠ 92%N → (32 ≤ c)%N →
  parse_chars (c :: r) = '(str, rest) ← parse_chars r; Some (c :: str, rest).
Proof.
  intros H1 H2 H3. cbn [parse_chars].
  by rewrite !bool_decide_eq_false_2 by (done || lia).
Qed.

Lemma parse_chars_unicode c r :
  (c < 65536)%N →
  parse_chars (unicode_escape c ++ r)
  = '(str, rest) ← parse_chars r; Some (c :: str, rest).
Proof.
  intros Hc. unfold unicode_escape. cbn [app parse_chars].
  rewrite (bool_decide_eq_false_2 (92%N = 34%N)) by done.
  rewrite (bool_decide_eq_true_2 (92%N = 92%N)) by done.
  rewrite (bool_decide_eq_true_2 (117%N = 117%N)) by done.
  unfold hex4.
  rewrite !hex_val_hex_digit by (apply N.mod_lt; done). cbn [mbind option_bind].
  replace ((c / 4096) `mod` 16 * 4096 + (c / 256) `mod` 16 * 256
           + (c / 16) `mod` 16 * 16 + c `mod` 16)%N with c; [done|].
  assert (c / 4096 < 16)%N by (apply N.Div0.div_lt_upper_bound; lia).
  rewrite (N.mod_small (c / 4096) 16) by done.
  pose proof (N.Div0.div_mod c 16). pose proof (N.Div0.div_mod (c / 16) 16).
  pose proof (N.Div0.div_mod (c / 256) 16).
  replace (c / 256)%N with (c / 16 / 16)%N in *
    by (rewrite N.Div0.div_div; done).
  replace (c / 4096)%N with (c / 16 / 16 / 16)%N in *
    by (rewrite !N.Div0.div_div; done).
  lia.
Qed.

Lemma parse_chars_quote_unit c r :
  is_lead c = false → is_trail c = false →
  parse_chars (quote_unit c ++ r)
  = '(str, rest) ← parse_chars r; Some (c :: str, rest).
Proof.
  intros _ _. unfold quote_unit.
  repeat case_bool_decide; subst; try reflexivity.
  - by apply parse_chars_unicode; lia.
  - apply parse_chars_literal; [done|done|lia].
Qed.

Lemma parse_chars_quote_units s : ∀ rest,
  parse_chars (quote_units s ++ 34%N :: rest) = Some (s, rest).
Proof.
  induction s as [s IH] using (induction_ltof1 _ length). unfold ltof in IH.
  intros rest. destruct s as [|c r]; [done|].
  assert (Hsur : ∀ x, is_lead x = true ∨ is_trail x = true →
                 (x < 65536 ∧ x ≠ 34 ∧ x ≠ 92 ∧ 32 ≤ x)%N).
  { intros x. unfold is_lead, is_trail.
    rewrite !andb_true_iff, !bool_decide_eq_true. lia. }
  cbn [quote_units]. destruct (is_lead c) eqn:Hlead.
  - destruct r as [|d r'].
    + rewrite parse_chars_unicode by (apply Hsur; auto). done.
    + destruct (is_trail d) eqn:Htrail.
      * cbn [app].
        rewrite parse_chars_literal by (apply Hsur; auto).
        rewrite parse_chars_literal by (apply Hsur; auto).
        rewrite IH by (simpl; lia). done.
      * rewrite <- app_assoc.
        rewrite parse_chars_unicode by (apply Hsur; auto).
        rewrite IH by (simpl; lia). done.
  - destruct (is_trail c) eqn:Htrail.
    + rewrite <- app_assoc.
      rewrite parse_chars_unicode by (apply Hsur; auto).
      rewrite IH by (simpl; lia). done.
    + rewrite <- app_assoc. rewrite parse_chars_quote_unit by done.
      rewrite IH by (simpl; lia). done.
Qed.

(** ** [JSON.parse] reads back what [JSON.stringify] wrote *)

Lemma value_ind_nested (P : value → Prop) :
  P VUndefined → P VNull → (∀ b, P (VBool b)) → (∀ m e, P (VNum m e)) →
  (∀ s, P (VStr s)) → (∀ t, P (VDate t)) →
  (∀ l, Forall P l → P (VArr l)) →
  (∀ o, Forall (λ kv, P kv.2) o → P (VObj o)) →
  ∀ v, P v.
Proof.
  intros Hu Hn Hb Hnum Hs Hd Ha Ho.
  fix IH 1. intros [| |b|m e|s|t|l|o];
    [exact Hu | exact Hn | apply Hb | apply Hnum | apply Hs | apply Hd | |].
  - apply Ha. induction l as [|x l IHl]; constructor; [apply IH | apply IHl].
  - apply Ho. induction o as [|[k x] o IHo]; constructor; [apply IH | apply IHo].
Qed.

(** Tests on literal code units are decided. *)
Ltac decide_units :=
  repeat match goal with
         | |- context [bool_decide (?x = ?y)] =>
             first
               [ rewrite (bool_decide_eq_true_2 (x = y)) by reflexivity
               | rewrite (bool_decide_eq_false_2 (x = y)) by discriminate ]
         end.

Section parse_stringify.
Context `{Platform}.

Lemma stringify_value_obj o :
  stringify_value (VObj o) = (123%N :: comma_join (stringify_members o)) ++ [125%N].
Proof. reflexivity. Qed.

Lemma stringify_members_clean o :
  Forall (λ kv, clean kv.2) o →
  stringify_members o
  = (λ kv, QuoteJSONString kv.1 ++ 58%N :: stringify_value kv.2) <$> o.
Proof.
  induction 1 as [|[k v] o Hv _ IH]; [done|].
  rewrite fmap_cons, <- IH. simpl in Hv. by destruct Hv.
Qed.

Lemma stringify_head v :
  clean v → ∃ c r, stringify_value v = c :: r ∧ opens c.
Proof.
  unfold opens. destruct 1 as [|[]| | |]; cbn [stringify_value];
    rewrite ?stringify_value_obj; eexists _, _; (split; [reflexivity|]); tauto.
Qed.

Lemma skip_ws_opens c r : opens c → skip_ws (c :: r) = c :: r.
Proof.
  unfold opens. intros Hc. cbn [skip_ws]. unfold is_ws.
  repeat destruct Hc as [->|Hc]; try subst c; by decide_units.
Qed.

Lemma parse_value_string f s rest :
  parse_value (S f) (QuoteJSONString s ++ rest) = Some (VStr s, rest).
Proof.
  unfold QuoteJSONString. cbn [app parse_value].
  rewrite skip_ws_opens by (unfold opens; tauto). decide_units.
  rewrite <- app_assoc. cbn [app]. by rewrite parse_chars_quote_units.
Qed.

Lemma parse_members_string_key f k text :
  parse_members (S f) (QuoteJSONString k ++ 58%N :: text)
  = '(v, r3) ← parse_value f text;
    match skip_ws r3 with
    | [] => None
    | c' :: r4 =>
        if bool_decide (c' = 44%N) then
          '(ms, rest) ← parse_members f r4; Some ((k, v) :: ms, rest)
        else if bool_decide (c' = 125%N) then Some ([(k, v)], r4)
        else None
    end.
Proof.
  unfold QuoteJSONString. cbn [app parse_members].
  rewrite skip_ws_opens by (unfold opens; tauto). decide_units.
  rewrite <- app_assoc. cbn [app]. rewrite parse_chars_quote_units.
  cbn [mbind option_bind]. cbn [skip_ws]. unfold is_ws. decide_units.
  cbn [orb]. by rewrite expect_hit.
Qed.

Lemma skip_ws_comma r : skip_ws (44%N :: r) = 44%N :: r.
Proof. cbn [skip_ws]. unfold is_ws. by decide_units. Qed.

Lemma skip_ws_bracket r : skip_ws (93%N :: r) = 93%N :: r.
Proof. cbn [skip_ws]. unfold is_ws. by decide_units. Qed.

Lemma skip_ws_brace r : skip_ws (125%N :: r) = 125%N :: r.
Proof. cbn [skip_ws]. unfold is_ws. by decide_units. Qed.

Lemma comma_join_cons {A} (g : A → jstring) x l :
  l ≠ [] → comma_join (x :: (g <$> l)) = x ++ 44%N :: comma_join (g <$> l).
Proof. by destruct l. Qed.

Lemma parse_elements_stringify l :
  l ≠ [] → Forall reads_back l → Forall clean l →
  ∀ f rest, (list_sum ((λ x, S (value_size x)) <$> l) ≤ f)%nat →
  parse_elements f (comma_join (stringify_value <$> l) ++ 93%N :: rest)
  = Some (l, rest).
Proof.
  intros Hne Hall. induction Hall as [|x l Hx _ IH]; [done|].
  intros Hclean f rest Hf. apply Forall_cons in Hclean as [Hcx Hcl].
  rewrite fmap_cons in Hf. simpl in Hf.
  destruct f as [|f]; [lia|]. cbn [parse_elements].
  destruct l as [|y l].
  - cbn [fmap list_fmap comma_join].
    rewrite (Hx Hcx) by (simpl in Hf; lia). cbn [mbind option_bind].
    rewrite skip_ws_bracket. by decide_units.
  - remember (y :: l) as l' eqn:Hl'.
    assert (Hl : l' ≠ []) by (by subst).
    rewrite fmap_cons, comma_join_cons by done. rewrite <- app_assoc. cbn [app].
    rewrite (Hx Hcx) by lia. cbn [mbind option_bind].
    rewrite skip_ws_comma. decide_units.
    rewrite IH by (done || lia). done.
Qed.

Lemma parse_members_stringify o :
  o ≠ [] → Forall (λ kv, reads_back kv.2) o → Forall (λ kv, clean kv.2) o →
  ∀ f rest, (list_sum ((λ kv, S (value_size kv.2)) <$> o) ≤ f)%nat →
  parse_members f
    (comma_join ((λ kv, QuoteJSONString kv.1 ++ 58%N :: stringify_value kv.2) <$> o)
     ++ 125%N :: rest)
  = Some (o, rest).
Proof.
  intros Hne Hall. induction Hall as [|[k x] o Hx _ IH]; [done|].
  intros Hclean f rest Hf. apply Forall_cons in Hclean as [Hcx Hco].
  rewrite fmap_cons in Hf. simpl in Hx, Hcx, Hf.
  destruct f as [|f]; [lia|].
  destruct o as [|[k' y] o].
  - cbn [fmap list_fmap comma_join fst snd]. rewrite <- app_assoc. cbn [app].
    rewrite parse_members_string_key.
    rewrite (Hx Hcx) by lia. cbn [mbind option_bind].
    rewrite skip_ws_brace. by decide_units.
  - remember ((k', y) :: o) as o' eqn:Ho'.
    assert (Ho : o' ≠ []) by (by subst).
    rewrite fmap_cons, comma_join_cons by done. cbn [fst snd].
    rewrite <- !app_assoc. cbn [app]. rewrite parse_members_string_key.
    rewrite (Hx Hcx) by lia. cbn [mbind option_bind].
    rewrite skip_ws_comma. decide_units.
    rewrite IH by (done || lia). done.
Qed.

Lemma enumeration_order_app l1 l2 :
  enumeration_order (l1 ++ l2) →
  enumeration_order l2
  ∧ ∀ x y, x ∈ l1 → y ∈ l2 → goes_before y x = false.
Proof.
  induction l1 as [|k l1 IH]; cbn [app enumeration_order].
  - intros Hord. split; [done|]. intros x y Hx. by apply elem_of_nil in Hx.
  - intros [Hk Hord]. destruct (IH Hord) as [H2 Hcross]. split; [done|].
    intros x y Hx Hy. apply elem_of_cons in Hx as [->|Hx]; [|by apply Hcross].
    rewrite Forall_forall in Hk. apply Hk. rewrite elem_of_app. by right.
Qed.

Lemma obj_set_last o k v :
  k ∉ o.*1 → (∀ k', k' ∈ o.*1 → goes_before k k' = false) →
  obj_set o k v = o ++ [(k, v)].
Proof.
  induction o as [|[k' v'] o IH]; [done|].
  cbn [obj_set fmap list_fmap fst app]. intros Hnotin Hlast.
  apply not_elem_of_cons in Hnotin as [Hne Hnotin].
  rewrite bool_decide_eq_false_2 by done.
  rewrite Hlast by left. f_equal. apply IH; [done|].
  intros k'' Hk''. apply Hlast. by right.
Qed.

Lemma make_object_NoDup ms :
  NoDup ms.*1 → enumeration_order ms.*1 → make_object ms = ms.
Proof.
  unfold make_object.
  assert (Hgen : ∀ acc, NoDup (acc ++ ms).*1 → enumeration_order (acc ++ ms).*1 →
            fold_left (λ o kv, obj_set o kv.1 kv.2) ms acc = acc ++ ms).
  { induction ms as [|[k v] ms IH]; intros acc Hnd Hord.
    - by rewrite app_nil_r.
    - cbn [fold_left fst snd].
      assert (Hset : obj_set acc k v = acc ++ [(k, v)]).
      { rewrite fmap_app, fmap_cons in Hnd, Hord. cbn [fst] in Hnd, Hord.
        apply NoDup_app in Hnd as (_ & Hdisj & _).
        apply enumeration_order_app in Hord as [_ Hcross].
        apply obj_set_last.
        - intros Hin. apply (Hdisj k Hin). by left.
        - intros k' Hk'. apply Hcross; [done|by left]. }
      rewrite Hset, IH; rewrite <- app_assoc; done. }
  intros Hnd Hord. by rewrite (Hgen []).
Qed.

Theorem parse_value_stringify v : reads_back v.
Proof.
  induction v as [| |b|m e|s|t|l IH|o IH] using value_ind_nested;
    intros Hclean f rest Hf; inversion Hclean; subst;
    (destruct f as [|f]; [simpl in Hf; lia|]).
  - cbn [stringify_value parse_value]. eval_js. cbn [app].
    rewrite skip_ws_opens by (unfold opens; tauto). by decide_units.
  - destruct b; cbn [stringify_value parse_value]; eval_js; cbn [app];
      rewrite skip_ws_opens by (unfold opens; tauto); by decide_units.
  - cbn [stringify_value]. apply parse_value_string.
  - cbn [stringify_value]. cbn [value_size] in Hf.
    destruct l as [|x l].
    + cbn [fmap list_fmap comma_join app parse_value].
      rewrite skip_ws_opens by (unfold opens; tauto). decide_units.
      rewrite skip_ws_bracket. by decide_units.
    + set (text := comma_join (stringify_value <$> x :: l)).
      assert (Hhead : ∃ c r, text = c :: r ∧ opens c).
      { subst text. rewrite fmap_cons.
        destruct (stringify_head x) as (c & r & Hx & Hc).
        { by eapply Forall_inv. }
        rewrite Hx. destruct (stringify_value <$> l); eexists _, _; eauto. }
      destruct Hhead as (c & r & Htext & Hc).
      cbn [app parse_value].
      rewrite skip_ws_opens by (unfold opens; tauto). decide_units.
      rewrite <- app_assoc. cbn [app]. rewrite Htext. cbn [app].
      rewrite skip_ws_opens by done.
      rewrite (bool_decide_eq_false_2 (c = 93%N))
        by (intros ->; unfold opens in Hc;
            repeat destruct Hc as [Hc|Hc]; discriminate).
      change (c :: r ++ 93%N :: rest) with ((c :: r) ++ 93%N :: rest).
      rewrite <- Htext. subst text.
      rewrite parse_elements_stringify by (done || lia). done.
  - rewrite stringify_value_obj. cbn [value_size] in Hf.
    rewrite stringify_members_clean by done.
    destruct o as [|[k x] o].
    + cbn [fmap list_fmap comma_join app parse_value].
      rewrite skip_ws_opens by (unfold opens; tauto). decide_units.
      rewrite skip_ws_brace. by decide_units.
    + set (text := comma_join _).
      assert (Hhead : ∃ r, text = 34%N :: r).
      { subst text. rewrite fmap_cons. cbn [fst]. unfold QuoteJSONString at 1.
        destruct (_ <$> o); eexists; reflexivity. }
      destruct Hhead as (r & Htext).
      cbn [app parse_value].
      rewrite skip_ws_opens by (unfold opens; tauto). decide_units.
      rewrite <- app_assoc. cbn [app]. rewrite Htext. cbn [app].
      rewrite skip_ws_opens by (unfold opens; tauto). decide_units.
      change (34%N :: r ++ 125%N :: rest) with ((34%N :: r) ++ 125%N :: rest).
      rewrite <- Htext. subst text.
      rewrite parse_members_stringify by (done || lia).
      cbn [mbind option_bind]. by rewrite make_object_NoDup.
Qed.
End parse_stringify.

(** ** The fuel [JSON_parse] gives is enough for what was written *)

Section fuel.
Context `{Platform}.

Lemma length_comma_join (ts : list jstring) :
  (list_sum ((λ t, S (length t)) <$> ts) ≤ S (length (comma_join ts)))%nat.
Proof.
  induction ts as [|t ts IH]; [simpl; lia|].
  destruct ts as [|t' ts]; [simpl; lia|].
  change (comma_join (t :: t' :: ts)) with (t ++ 44%N :: comma_join (t' :: ts)).
  rewrite fmap_cons. cbn [list_sum foldr].
  rewrite length_app. cbn [length]. unfold list_sum in IH. lia.
Qed.

Lemma value_size_length v :
  clean v → (value_size v ≤ length (stringify_value v))%nat.
Proof.
  induction v as [| |b|m e|s|t|l IH|o IH] using value_ind_nested;
    intros Hclean; inversion Hclean; subst.
  - simpl. lia.
  - destruct b; simpl; lia.
  - cbn [stringify_value value_size]. unfold QuoteJSONString.
    cbn [length]. rewrite length_app. simpl. lia.
  - cbn [stringify_value value_size]. rewrite length_app. cbn [length].
    pose proof (length_comma_join (stringify_value <$> l)) as Hjoin.
    assert (Hsum : (list_sum ((λ x, S (value_size x)) <$> l)
              ≤ list_sum ((λ t, S (length t)) <$> (stringify_value <$> l)))%nat).
    { clear Hjoin Hclean. induction l as [|x l IHl]; [done|].
      apply Forall_cons in IH as [Hx IH]. apply Forall_cons in H1 as [Hcx Hcl].
      rewrite !fmap_cons. cbn [list_sum foldr].
      specialize (IHl IH Hcl). specialize (Hx Hcx). unfold list_sum in IHl. lia. }
    lia.
  - rewrite stringify_value_obj, stringify_members_clean by done.
    cbn [value_size]. rewrite length_app. cbn [length].
    pose proof (length_comma_join
      ((λ kv, QuoteJSONString kv.1 ++ 58%N :: stringify_value kv.2) <$> o)) as Hjoin.
    assert (Hsum : (list_sum ((λ kv, S (value_size kv.2)) <$> o)
              ≤ list_sum ((λ t, S (length t)) <$>
                  ((λ kv, QuoteJSONString kv.1 ++ 58%N :: stringify_value kv.2) <$> o)))%nat).
    { clear Hjoin Hclean H1 H2. induction o as [|[k x] o IHo]; [done|].
      apply Forall_cons in IH as [Hx IH]. apply Forall_cons in H3 as [Hcx Hco].
      rewrite !fmap_cons. cbn [list_sum foldr fst snd].
      specialize (IHo IH Hco). specialize (Hx Hcx). unfold list_sum in IHo.
      simpl in Hx. rewrite length_app. cbn [length]. lia. }
    lia.
Qed.

Theorem JSON_parse_stringify v :
  clean v → JSON_parse (stringify_value v) = Some v.
Proof.
  intros Hclean. unfold JSON_parse.
  pose proof (value_size_length v Hclean) as Hsize.
  pose proof (parse_value_stringify v Hclean
                (2 * length (stringify_value v) + 1)%nat []) as Hparse.
  rewrite app_nil_r in Hparse. rewrite Hparse by lia. done.
Qed.
End fuel.

(** ** More fuel changes nothing

    Every parser returns a strictly shorter remainder, so a call chain
    is at most twice as long as the text, and [JSON_parse] rejects a
    text only for its syntax. *)

Lemma skip_ws_length s : (length (skip_ws s) ≤ length s)%nat.
Proof.
  induction s as [|c r IH]; [done|]. cbn [skip_ws].
  destruct (is_ws c); cbn [length]; lia.
Qed.

Lemma skip_ws_cons s c r :
  skip_ws s = c :: r → (length r < length s)%nat.
Proof.
  intros Hs. pose proof (skip_ws_length s) as Hlen.
  rewrite Hs in Hlen. cbn [length] in Hlen. lia.
Qed.

Lemma expect_length c s r : expect c s = Some r → (length r < length s)%nat.
Proof.
  destruct s as [|c' s']; [done|]. cbn [expect].
  case_bool_decide; [|done]. intros [= <-]. cbn [length]. lia.
Qed.

Lemma expect_string_length p s r :
  expect_string p s = Some r → (length r ≤ length s)%nat.
Proof.
  revert s. induction p as [|c p IH]; intros s; cbn [expect_string].
  - by intros [= <-].
  - destruct (expect c s) as [s'|] eqn:Hc; [|done]. cbn [mbind option_bind].
    intros Hp%IH. apply expect_length in Hc. lia.
Qed.

Lemma parse_chars_length s : ∀ k r,
  parse_chars s = Some (k, r) → (length r < length s)%nat.
Proof.
  induction s as [s IH] using (induction_ltof1 _ length). unfold ltof in IH.
  intros k r. destruct s as [|c s1]; [done|]. cbn [parse_chars].
  case_bool_decide; [intros [= _ <-]; cbn [length]; lia|].
  case_bool_decide.
  - destruct s1 as [|e s2]; [done|]. case_bool_decide.
    + destruct s2 as [|h1 [|h2 [|h3 [|h4 s3]]]]; try done.
      destruct (hex4 h1 h2 h3 h4); [|done]. cbn [mbind option_bind].
      destruct (parse_chars s3) as [[str rest]|] eqn:Hrest; [|done].
      cbn [mbind option_bind]. intros [= _ <-].
      apply IH in Hrest; cbn [length] in *; lia.
    + destruct (unescape e); [|done]. cbn [mbind option_bind].
      destruct (parse_chars s2) as [[str rest]|] eqn:Hrest; [|done].
      cbn [mbind option_bind]. intros [= _ <-].
      apply IH in Hrest; cbn [length] in *; lia.
  - case_bool_decide; [done|].
    destruct (parse_chars s1) as [[str rest]|] eqn:Hrest; [|done].
    cbn [mbind option_bind]. intros [= _ <-].
    apply IH in Hrest; cbn [length] in *; lia.
Qed.

Lemma span_digits_length s :
  (length (span_digits s).2 + length (span_digits s).1 = length s)%nat.
Proof.
  induction s as [|c r IH]; [done|]. cbn [span_digits].
  destruct (digit_val c); [|cbn; lia].
  destruct (span_digits r) as [ds rest]. cbn [fst snd length] in *. lia.
Qed.

Lemma parse_number_length s v r :
  parse_number s = Some (v, r) → (length r < length s)%nat.
Proof.
  unfold parse_number.
  set (signed := match s with
                 | c :: r0 => if bool_decide (c = 45%N) then (-1, r0) else (1, s)
                 | [] => (1, s)
                 end).
  assert (Hsigned : (length signed.2 ≤ length s)%nat).
  { subst signed. destruct s as [|c r0]; [done|].
    case_bool_decide; cbn [snd length]; lia. }
  destruct signed as [sign s1]. cbn [snd] in Hsigned.
  pose proof (span_digits_length s1) as Hip.
  destruct (span_digits s1) as [ip s2]. cbn [fst snd] in Hip.
  destruct ip as [|d ds]; [done|]. cbn [length] in Hip.
  destruct (_ && _); [done|].
  set (frac := match s2 with
               | c :: r0 =>
                   if bool_decide (c = 46%N) then
                     let '(fp, r') := span_digits r0 in
                     if bool_decide (fp = []) then None else Some (fp, r')
                   else Some ([], s2)
               | [] => Some ([], s2)
               end).
  assert (Hfrac : ∀ fp s3, frac = Some (fp, s3) → (length s3 ≤ length s2)%nat).
  { subst frac. intros fp s3. destruct s2 as [|c r0]; [by intros [= _ <-]|].
    case_bool_decide; [|by intros [= _ <-]].
    pose proof (span_digits_length r0) as Hfp.
    destruct (span_digits r0) as [fp' r']. cbn [fst snd] in Hfp.
    case_bool_decide; [done|]. intros [= _ <-]. cbn [length]. lia. }
  destruct frac as [[fp s3]|]; [|done]. specialize (Hfrac fp s3 eq_refl).
  cbn [mbind option_bind].
  set (expo := match s3 with
               | c :: r0 =>
                   if bool_decide (c = 101%N) || bool_decide (c = 69%N) then
                     let '(esign, r1) :=
                       match r0 with
                       | c' :: r' =>
                           if bool_decide (c' = 45%N) then (-1, r')
                           else if bool_decide (c' = 43%N) then (1, r')
                           else (1, r0)
                       | [] => (1, r0)
                       end in
                     let '(ep, r') := span_digits r1 in
                     if bool_decide (ep = []) then None
                     else Some (esign * digits_value ep, r')
                   else Some (0, s3)
               | [] => Some (0, s3)
               end).
  assert (Hexpo : ∀ ex s4, expo = Some (ex, s4) → (length s4 ≤ length s3)%nat).
  { subst expo. intros ex s4. destruct s3 as [|c r0]; [by intros [= _ <-]|].
    destruct (_ || _); [|by intros [= _ <-]].
    set (esigned := match r0 with
                    | c' :: r' =>
                        if bool_decide (c' = 45%N) then (-1, r')
                        else if bool_decide (c' = 43%N) then (1, r')
                        else (1, r0)
                    | [] => (1, r0)
                    end).
    assert (Hes : (length esigned.2 ≤ length r0)%nat).
    { subst esigned. destruct r0 as [|c' r']; [done|].
      repeat case_bool_decide; cbn [snd length]; lia. }
    destruct esigned as [esign r1]. cbn [snd] in Hes.
    pose proof (span_digits_length r1) as Hep.
    destruct (span_digits r1) as [ep r']. cbn [fst snd] in Hep.
    case_bool_decide; [done|]. intros [= _ <-]. cbn [length]. lia. }
  destruct expo as [[ex s4]|]; [|done]. specialize (Hexpo ex s4 eq_refl).
  cbn [mbind option_bind]. intros [= _ <-]. lia.
Qed.

Lemma parsers_consume fuel :
  consumes (parse_value fuel) ∧ consumes (parse_elements fuel)
  ∧ consumes (parse_members fuel).
Proof.
  induction fuel as [|fuel (IHv & IHe & IHm)]; [by repeat split|].
  split; [|split]; intros s x r.
  - cbn [parse_value].
    destruct (skip_ws s) as [|c s1] eqn:Hs; [done|].
    apply skip_ws_cons in Hs.
    case_bool_decide.
    { destruct (skip_ws s1) as [|c' s2] eqn:Hs1; [done|].
      apply skip_ws_cons in Hs1.
      case_bool_decide; [intros [= _ <-]; lia|].
      destruct (parse_members fuel (c' :: s2)) as [[ms rest]|] eqn:Hms; [|done].
      cbn [mbind option_bind]. intros [= _ <-].
      apply IHm in Hms. cbn [length] in Hms. lia. }
    case_bool_decide.
    { destruct (skip_ws s1) as [|c' s2] eqn:Hs1; [done|].
      apply skip_ws_cons in Hs1.
      case_bool_decide; [intros [= _ <-]; lia|].
      destruct (parse_elements fuel (c' :: s2)) as [[vs rest]|] eqn:Hvs; [|done].
      cbn [mbind option_bind]. intros [= _ <-].
      apply IHe in Hvs. cbn [length] in Hvs. lia. }
    case_bool_decide.
    { destruct (parse_chars s1) as [[str rest]|] eqn:Hstr; [|done].
      cbn [mbind option_bind]. intros [= _ <-].
      apply parse_chars_length in Hstr. lia. }
    case_bool_decide.
    { destruct (expect_string _ s1) as [rest|] eqn:Hlit; [|done].
      cbn [mbind option_bind]. intros [= _ <-].
      apply expect_string_length in Hlit. lia. }
    case_bool_decide.
    { destruct (expect_string _ s1) as [rest|] eqn:Hlit; [|done].
      cbn [mbind option_bind]. intros [= _ <-].
      apply expect_string_length in Hlit. lia. }
    case_bool_decide.
    { destruct (expect_string _ s1) as [rest|] eqn:Hlit; [|done].
      cbn [mbind option_bind]. intros [= _ <-].
      apply expect_string_length in Hlit. lia. }
    intros Hnum%parse_number_length. cbn [length] in Hnum. lia.
  - cbn [parse_elements].
    destruct (parse_value fuel s) as [[v s1]|] eqn:Hv; [|done].
    cbn [mbind option_bind]. apply IHv in Hv.
    destruct (skip_ws s1) as [|c s2] eqn:Hs1; [done|].
    apply skip_ws_cons in Hs1.
    case_bool_decide.
    { destruct (parse_elements fuel s2) as [[vs rest]|] eqn:Hvs; [|done].
      cbn [mbind option_bind]. intros [= _ <-]. apply IHe in Hvs. lia. }
    case_bool_decide; [|done]. intros [= _ <-]. lia.
  - cbn [parse_members].
    destruct (skip_ws s) as [|c s1] eqn:Hs; [done|].
    apply skip_ws_cons in Hs.
    case_bool_decide; [|done].
    destruct (parse_chars s1) as [[k s2]|] eqn:Hk; [|done].
    cbn [mbind option_bind]. apply parse_chars_length in Hk.
    pose proof (skip_ws_length s2) as Hs2.
    destruct (expect 58%N (skip_ws s2)) as [s3|] eqn:Hcolon; [|done].
    cbn [mbind option_bind]. apply expect_length in Hcolon.
    destruct (parse_value fuel s3) as [[v s4]|] eqn:Hv; [|done].
    cbn [mbind option_bind]. apply IHv in Hv.
    destruct (skip_ws s4) as [|c' s5] eqn:Hs4; [done|].
    apply skip_ws_cons in Hs4.
    case_bool_decide.
    { destruct (parse_members fuel s5) as [[ms rest]|] eqn:Hms; [|done].
      cbn [mbind option_bind]. intros [= _ <-]. apply IHm in Hms. lia. }
    case_bool_decide; [|done]. intros [= _ <-]. lia.
Qed.

Lemma parsers_settled n :
  settled parse_value 1 n ∧ settled parse_elements 2 n
  ∧ settled parse_members 2 n.
Proof.
  induction n as [|n (IHv & IHe & IHm)].
  { repeat split; intros s f Hs; lia. }
  split; [|split]; intros s [|f] Hs Hf; try lia.
  - cbn [parse_value].
    destruct (skip_ws s) as [|c s1] eqn:Hs1; [done|].
    apply skip_ws_cons in Hs1.
    repeat (case_bool_decide; try done).
    + destruct (skip_ws s1) as [|c' s2] eqn:Hs2; [done|].
      apply skip_ws_cons in Hs2. case_bool_decide; [done|].
      rewrite (IHm (c' :: s2) f) by (cbn [length]; lia). done.
    + destruct (skip_ws s1) as [|c' s2] eqn:Hs2; [done|].
      apply skip_ws_cons in Hs2. case_bool_decide; [done|].
      rewrite (IHe (c' :: s2) f) by (cbn [length]; lia). done.
  - cbn [parse_elements].
    rewrite (IHv s f) by lia.
    destruct (parse_value n s) as [[v s1]|] eqn:Hv; [|done].
    cbn [mbind option_bind].
    apply (proj1 (parsers_consume n)) in Hv.
    destruct (skip_ws s1) as [|c s2] eqn:Hs1; [done|].
    apply skip_ws_cons in Hs1.
    case_bool_decide; [|done].
    rewrite (IHe s2 f) by lia. done.
  - cbn [parse_members].
    destruct (skip_ws s) as [|c s1] eqn:Hs1; [done|].
    apply skip_ws_cons in Hs1.
    case_bool_decide; [|done].
    destruct (parse_chars s1) as [[k s2]|] eqn:Hk; [|done].
    cbn [mbind option_bind]. apply parse_chars_length in Hk.
    pose proof (skip_ws_length s2) as Hs2.
    destruct (expect 58%N (skip_ws s2)) as [s3|] eqn:Hcolon; [|done].
    cbn [mbind option_bind]. apply expect_length in Hcolon.
    rewrite (IHv s3 f) by lia.
    destruct (parse_value n s3) as [[v s4]|] eqn:Hv; [|done].
    cbn [mbind option_bind].
    apply (proj1 (parsers_consume n)) in Hv.
    destruct (skip_ws s4) as [|c' s5] eqn:Hs4; [done|].
    apply skip_ws_cons in Hs4.
    case_bool_decide; [|done].
    rewrite (IHm s5 f) by lia. done.
Qed.

(** [JSON_parse] gives [parse_value] all the fuel it can use. *)
Theorem JSON_parse_fuel text f :
  (2 * length text + 1 ≤ f)%nat →
  parse_value f text = parse_value (2 * length text + 1) text.
Proof.
  intros Hf. by apply (proj1 (parsers_settled (2 * length text + 1))).
Qed.

(** ** Appointments survive the store *)

Section roundtrip.
Context `{Platform}.

Lemma stringify_to_object a :
  stringify_value (VObj (to_object a)) = stringify_value (json_of a).
Proof. by destruct a as [i ti [s|] [e|] rn [d|] ty]. Qed.

Lemma clean_json_of a : clean (json_of a).
Proof.
  destruct a as [i ti s e rn d ty]. unfold json_of. cbn [id title start end_
    requesterName description type]. constructor.
  - destruct d; apply (bool_decide_unpack _); by vm_compute.
  - destruct d; cbn [fmap list_fmap app fst enumeration_order];
      repeat split; repeat constructor; by vm_compute.
  - destruct s, e, d; repeat constructor.
Qed.

Lemma serialize_json l :
  serialize (to_object <$> l) = stringify_value (VArr (json_of <$> l)).
Proof.
  unfold serialize. cbn [stringify_value]. do 3 f_equal.
  rewrite <- !list_fmap_compose. apply list_fmap_ext.
  intros _ a _. apply stringify_to_object.
Qed.

Lemma serialize_head l : ∃ r, serialize l = 91%N :: r.
Proof. unfold serialize. cbn [stringify_value app]. eauto. Qed.

Lemma Date_parse_toISOString t :
  - maxTime ≤ t ≤ maxTime → Date_parse (toISOString t) = Some t.
Proof. intros Ht. unfold Date_parse. by rewrite Date_parse_iso_toISOString. Qed.

Lemma TimeClip_in_range t : - maxTime ≤ t ≤ maxTime → TimeClip (Some t) = Some t.
Proof.
  intros Ht. unfold TimeClip, in_time_range. cbn [mbind option_bind].
  by rewrite !bool_decide_eq_true_2 by lia.
Qed.

Lemma wf_date_range t : wf_date (Some t) → - maxTime ≤ t ≤ maxTime.
Proof.
  unfold wf_date, TimeClip, in_time_range. cbn [mbind option_bind].
  destruct (bool_decide (- maxTime ≤ t)) eqn:H1; [|done].
  destruct (bool_decide (t ≤ maxTime)) eqn:H2; [|done].
  apply bool_decide_eq_true_1 in H1. apply bool_decide_eq_true_1 in H2. done.
Qed.

Lemma wf_date_TimeClip d : wf_date (TimeClip d).
Proof.
  unfold wf_date, TimeClip. destruct d as [t|]; [|done].
  cbn [mbind option_bind].
  destruct (in_time_range t) eqn:Ht; cbn [mbind option_bind]; by rewrite ?Ht.
Qed.

Lemma valid_date_wf d : valid_date d → wf_date d.
Proof. intros (t & -> & Ht). by apply TimeClip_in_range. Qed.

Lemma valid_date_reload d : valid_date d → reload_date d = d.
Proof. by intros (t & -> & Ht). Qed.

Lemma new_Date_date_json d :
  wf_date d → new_Date (date_json d) = Some (reload_date d).
Proof.
  destruct d as [t|]; [|done]. intros Ht%wf_date_range.
  cbn [date_json new_Date reload_date].
  by rewrite Date_parse_toISOString, TimeClip_in_range.
Qed.

Lemma revive_json_of a :
  wf_times a → revive (json_of a) = Some (to_object (reload a)).
Proof.
  destruct a as [i ti s e rn d ty]. intros [Hs He]. cbn in Hs, He.
  unfold revive, json_of, to_object, reload.
  cbn [id title start end_ requesterName description type].
  pose proof (new_Date_date_json s Hs) as Hstart.
  pose proof (new_Date_date_json e He) as Hend.
  revert Hstart Hend.
  generalize (reload_date s) (reload_date e) (date_json s) (date_json e).
  intros s' e' js' je' Hstart Hend.
  assert (Hms : ∀ o, member (VObj ([(js "id", VStr i); (js "title", VStr ti);
              (js "start", js'); (js "end", je'); (js "requesterName", VStr rn)]
              ++ o)) (js "start") = Some js') by (intros o; by vm_compute).
  assert (Hme : ∀ o, member (VObj ([(js "id", VStr i); (js "title", VStr ti);
              (js "start", js'); (js "end", je'); (js "requesterName", VStr rn)]
              ++ o)) (js "end") = Some je') by (intros o; by vm_compute).
  rewrite Hms, Hme. cbn [mbind option_bind]. rewrite Hstart, Hend.
  cbn [mbind option_bind]. reflexivity.
Qed.

Theorem deserialize_serialize l :
  Forall wf_times l →
  deserialize (serialize (to_object <$> l)) = Some (to_object <$> (reload <$> l)).
Proof.
  intros Hwf. unfold deserialize.
  rewrite serialize_json, JSON_parse_stringify.
  - cbn [mbind option_bind]. apply mapM_Some.
    rewrite <- list_fmap_compose. apply Forall2_fmap.
    apply Forall_Forall2_diag. eapply Forall_impl; [exact Hwf|].
    intros a Ha. by apply revive_json_of.
  - constructor. apply Forall_fmap, Forall_true. intros a. apply clean_json_of.
Qed.

Lemma reload_valid l : Forall valid_times l → reload <$> l = l.
Proof.
  induction 1 as [|a l [Hs He] _ IH]; [done|].
  rewrite fmap_cons, IH. f_equal. destruct a as [i ti s e rn d ty].
  unfold reload. cbn in *. by rewrite !valid_date_reload.
Qed.

Lemma getAppointments_stored ls l :
  Forall wf_times l →
  getAppointments (<[LOCAL_STORAGE_KEY := serialize (to_object <$> l)]> ls)
  = to_object <$> (reload <$> l).
Proof.
  intros Hwf. unfold getAppointments. rewrite lookup_insert_eq.
  rewrite deserialize_serialize by done.
  by destruct (serialize_head (to_object <$> l)) as [r ->].
Qed.
End roundtrip.

(** ** The store *)

Section store.
Context `{Platform}.

Lemma obj_get_set_eq o k v : obj_get (obj_set o k v) k = v.
Proof.
  induction o as [|[k' v'] o IH]; cbn [obj_set obj_get].
  - by rewrite bool_decide_eq_true_2.
  - case_bool_decide as Hk; cbn [obj_get].
    + by rewrite bool_decide_eq_true_2.
    + destruct (goes_before k k'); cbn [obj_get].
      * by rewrite bool_decide_eq_true_2.
      * by rewrite bool_decide_eq_false_2.
Qed.

Lemma obj_get_set_ne o k k' v :
  k ≠ k' → obj_get (obj_set o k v) k' = obj_get o k'.
Proof.
  intros Hne. induction o as [|[k0 v0] o IH]; cbn [obj_set obj_get].
  - by rewrite bool_decide_eq_false_2.
  - case_bool_decide as Hk; cbn [obj_get].
    + subst k0. by rewrite !bool_decide_eq_false_2.
    + destruct (goes_before k k0); cbn [obj_get].
      * by rewrite (bool_decide_eq_false_2 (k = k')).
      * by rewrite IH.
Qed.

Lemma wf_of_TimeClip x d : Some (TimeClip x) = Some d → wf_date d.
Proof. intros Heq. injection Heq as <-. apply wf_date_TimeClip. Qed.

Lemma wf_of_TimeClip_fmap (x : option Date) d : TimeClip <$> x = Some d → wf_date d.
Proof. destruct x; [apply wf_of_TimeClip|done]. Qed.

Lemma new_Date_wf v d : new_Date v = Some d → wf_date d.
Proof.
  destruct v as [| |b|m e|s|t|l|o]; cbn [new_Date]; intros Hd;
    try (by eapply wf_of_TimeClip); try (by eapply wf_of_TimeClip_fmap).
  - by injection Hd as <-.
  - by injection Hd as <-.
  - injection Hd as <-. by destruct b.
  - repeat case_bool_decide;
      (by eapply wf_of_TimeClip) || (by eapply wf_of_TimeClip_fmap).
Qed.

Lemma revive_dates apt o :
  revive apt = Some o →
  ∃ ds de, obj_get o (js "start") = VDate ds ∧ obj_get o (js "end") = VDate de
    ∧ wf_date ds ∧ wf_date de.
Proof.
  unfold revive. intros Hrev.
  destruct (member apt (js "start")) as [s|]; [|done]. cbn [mbind option_bind] in Hrev.
  destruct (new_Date s) as [ds|] eqn:Hds; [|done]. cbn [mbind option_bind] in Hrev.
  destruct (member apt (js "end")) as [e|]; [|done]. cbn [mbind option_bind] in Hrev.
  destruct (new_Date e) as [de|] eqn:Hde; [|done]. cbn [mbind option_bind] in Hrev.
  injection Hrev as <-. exists ds, de.
  rewrite obj_get_set_ne by (by vm_compute).
  rewrite !obj_get_set_eq. repeat split; eauto using new_Date_wf.
Qed.

(** Every record [getAppointments] returns has [Date] objects as its
    [start] and [end]. *)
Theorem deserialize_dates ls o :
  o ∈ getAppointments ls →
  ∃ ds de, obj_get o (js "start") = VDate ds ∧ obj_get o (js "end") = VDate de
    ∧ wf_date ds ∧ wf_date de.
Proof.
  unfold getAppointments. destruct (ls !! LOCAL_STORAGE_KEY) as [[|c r]|];
    [by intros ?%elem_of_nil| |by intros ?%elem_of_nil].
  unfold deserialize. destruct (JSON_parse (c :: r)) as [data|];
    [|by intros ?%elem_of_nil]. cbn [mbind option_bind].
  destruct data; try (by intros ?%elem_of_nil).
  destruct (mapM revive elems) as [l|] eqn:Hmap; [|by intros ?%elem_of_nil].
  intros Ho. apply mapM_Some_1 in Hmap.
  apply list_elem_of_lookup in Ho as [i Hi].
  destruct (Forall2_lookup_r _ _ _ _ _ Hmap Hi) as (apt & _ & Hrev).
  by eapply revive_dates.
Qed.

Lemma checkAvailability_true s e ex ls :
  checkAvailability s e ex ls = true ↔
  ∀ x, x ∈ getAppointments ls →
    match ex with
    | Some i => i ≠ [] ∧ has_id i x = true
    | None => False
    end ∨ overlaps_record s e x = false.
Proof.
  unfold checkAvailability. rewrite negb_true_iff.
  rewrite <- not_true_iff_false, existsb_exists. split.
  - intros Hno x Hx.
    destruct ex as [i|].
    + destruct (decide (i = [])) as [->|Hi].
      * right. apply not_true_iff_false. intros Hov. apply Hno.
        exists x. split; [by apply list_elem_of_In|]. done.
      * destruct (has_id i x) eqn:Hid; [left; done|]. right.
        apply not_true_iff_false. intros Hov. apply Hno.
        exists x. split; [by apply list_elem_of_In|].
        rewrite Hid, andb_false_r. done.
    + right. apply not_true_iff_false. intros Hov. apply Hno.
      exists x. split; [by apply list_elem_of_In|]. done.
  - intros Hall (x & Hx%list_elem_of_In & Hov).
    destruct (Hall x Hx) as [Hex|Hfree].
    + destruct ex as [i|]; [|done]. destruct Hex as [Hi Hid].
      rewrite Hid, bool_decide_eq_false_2 in Hov by done. done.
    + destruct ex as [i|].
      * destruct (negb (bool_decide (i = [])) && has_id i x); [done|].
        unfold overlaps_record in Hfree. congruence.
      * unfold overlaps_record in Hfree. congruence.
Qed.

Lemma checkAvailability_false s e ex ls :
  checkAvailability s e ex ls = false ↔
  ∃ x, x ∈ getAppointments ls
    ∧ match ex with
      | Some i => i = [] ∨ has_id i x = false
      | None => True
      end ∧ overlaps_record s e x = true.
Proof.
  unfold checkAvailability. rewrite negb_false_iff, existsb_exists. split.
  - intros (x & Hx%list_elem_of_In & Hov). exists x. split; [done|].
    destruct ex as [i|]; [|done].
    destruct (decide (i = [])) as [->|Hi]; [by auto|].
    rewrite bool_decide_eq_false_2 in Hov by done. cbn [negb andb] in Hov.
    destruct (has_id i x); [done|]. auto.
  - intros (x & Hx & Hex & Hov). exists x. split; [by apply list_elem_of_In|].
    destruct ex as [i|]; [|done].
    destruct Hex as [->|Hid]; [done|]. by rewrite Hid, andb_false_r.
Qed.

Lemma saveAppointment_storage a ls :
  (saveAppointment a ls).2
  = <[LOCAL_STORAGE_KEY := serialize (saveAppointment a ls).1]> ls.
Proof. reflexivity. Qed.

Lemma saveAppointment_replace a ls l1 x l2 :
  getAppointments ls = l1 ++ x :: l2 →
  has_id (id a) x = true → Forall (λ y, has_id (id a) y = false) l1 →
  (saveAppointment a ls).1 = l1 ++ to_object a :: l2.
Proof.
  intros Hcur Hx Hl1. unfold saveAppointment. cbn [fst]. rewrite Hcur.
  assert (Hfind : list_find (λ y, has_id (id a) y) (l1 ++ x :: l2)
                  = Some (length l1, x)).
  { apply list_find_Some. split; [|split].
    - by rewrite list_lookup_middle.
    - by apply Is_true_true_2.
    - intros j y Hj Hlt. rewrite lookup_app_l in Hj by done.
      rewrite Forall_lookup in Hl1. apply Is_true_false_2. eauto. }
  rewrite Hfind. by rewrite insert_app_r_alt, Nat.sub_diag.
Qed.

Lemma saveAppointment_append a ls :
  Forall (λ y, has_id (id a) y = false) (getAppointments ls) →
  (saveAppointment a ls).1 = getAppointments ls ++ [to_object a].
Proof.
  intros Hnone. unfold saveAppointment. cbn [fst].
  assert (Hfind : list_find (λ y, has_id (id a) y) (getAppointments ls) = None).
  { apply list_find_None. eapply Forall_impl; [exact Hnone|].
    intros y Hy. by apply Is_true_false_2. }
  by rewrite Hfind.
Qed.

(** A record with the id is found at its first occurrence. *)
Lemma first_with_id i (l : list object) x :
  x ∈ l → has_id i x = true →
  ∃ l1 y l2, l = l1 ++ y :: l2 ∧ has_id i y = true
    ∧ Forall (λ z, has_id i z = false) l1.
Proof.
  intros Hx Hid.
  destruct (list_find (λ y, has_id i y) l) as [[n y]|] eqn:Hfind.
  - apply list_find_Some in Hfind as (Hn & Hy & Hbefore).
    exists (take n l), y, (drop (S n) l). split; [|split].
    + by rewrite take_drop_middle.
    + by apply Is_true_true_1.
    + apply Forall_lookup. intros j z Hj.
      apply lookup_take_Some in Hj as [Hj Hlt].
      apply Is_true_false_1. eauto.
  - apply list_find_None in Hfind. rewrite Forall_forall in Hfind.
    specialize (Hfind x Hx). by apply Is_true_true_2 in Hid.
Qed.
End store.

(** ** The submit handler *)

Section submit.
Context `{Platform}.

Lemma handleSubmit_checked props f env ls :
  filled f → not_past f env →
  handleSubmit props f env ls =
  if checkAvailability (startDateTime f) (endDateTime f)
       (id <$> existingAppointment props) ls
  then {| error := [];
          storage := (saveAppointment (submit_appointment props f env) ls).2;
          closed := true |}
  else {| error := overlap_message; storage := ls; closed := false |}.
Proof.
  intros (Hd & Ht & Hti & Hn) Hpast. unfold handleSubmit.
  rewrite !bool_decide_eq_false_2 by done. cbn [orb].
  unfold not_past in Hpast. rewrite Hpast.
  by destruct (checkAvailability _ _ _ _).
Qed.

Lemma handleSubmit_failure props f env ls :
  error (handleSubmit props f env ls) ≠ [] →
  storage (handleSubmit props f env ls) = ls
  ∧ closed (handleSubmit props f env ls) = false.
Proof.
  unfold handleSubmit.
  destruct (_ || _); [done|]. destruct (num_lt _ _); [done|].
  destruct (negb _); [done|]. cbn [error]. done.
Qed.

Lemma handleSubmit_success props f env ls :
  error (handleSubmit props f env ls) = [] →
  filled f ∧ not_past f env
  ∧ checkAvailability (startDateTime f) (endDateTime f)
      (id <$> existingAppointment props) ls = true
  ∧ storage (handleSubmit props f env ls)
    = (saveAppointment (submit_appointment props f env) ls).2
  ∧ closed (handleSubmit props f env ls) = true.
Proof.
  unfold handleSubmit, filled, not_past.
  destruct (bool_decide (form_date f = [])) eqn:H1; [done|].
  destruct (bool_decide (form_time f = [])) eqn:H2; [done|].
  destruct (bool_decide (form_title f = [])) eqn:H3; [done|].
  destruct (bool_decide (form_name f = [])) eqn:H4; [done|].
  cbn [orb]. destruct (num_lt _ _); [done|].
  destruct (checkAvailability _ _ _ _); [|done]. cbn [negb error storage closed].
  intros _. apply bool_decide_eq_false_1 in H1, H2, H3, H4. done.
Qed.

(** Whenever the handler reports an error the store is untouched. *)
Lemma handleSubmit_overlap_unchanged props f env ls x :
  x ∈ getAppointments ls →
  match existingAppointment props with
  | Some a => id a = [] ∨ has_id (id a) x = false
  | None => True
  end →
  overlaps_record (startDateTime f) (endDateTime f) x = true →
  error (handleSubmit props f env ls) ≠ []
  ∧ storage (handleSubmit props f env ls) = ls
  ∧ closed (handleSubmit props f env ls) = false.
Proof.
  intros Hx Hex Hov.
  assert (Hcheck : checkAvailability (startDateTime f) (endDateTime f)
                     (id <$> existingAppointment props) ls = false).
  { apply checkAvailability_false. exists x. split; [done|]. split; [|done].
    by destruct (existingAppointment props). }
  assert (Herr : error (handleSubmit props f env ls) ≠ []).
  { unfold handleSubmit.
    destruct (_ || _); [done|]. destruct (num_lt _ _); [done|].
    rewrite Hcheck. done. }
  split; [done|]. by apply handleSubmit_failure.
Qed.
End submit.

(** * The claims *)

(** ** The overlap test *)

Lemma num_gt_lt a b : num_gt a b = num_lt b a.
Proof. reflexivity. Qed.

Lemma overlaps_sym s e s' e' : overlaps s e s' e' = overlaps s' e' s e.
Proof. unfold overlaps, num_gt. apply andb_comm. Qed.

Lemma num_lt_irrefl a : num_lt a a = false.
Proof. destruct a as [x|]; [|done]. cbn. apply bool_decide_eq_false_2. lia. Qed.

(** C6: the overlap test of [checkAvailability] is
    [start < other.end && end > other.start] on the [getTime()] values;
    on valid times it holds exactly when both inequalities do; it is
    symmetric; and two ranges that touch, [s,m) and [m,e), do not
    overlap, in either order, as 10:00-10:30 and 10:30-11:00. *)
Theorem C6_overlaps_half_open :
  (∀ s e s' e', overlaps s e s' e' = num_lt s e' && num_gt e s')
  ∧ (∀ s e s' e' : Z,
       overlaps (Some s) (Some e) (Some s') (Some e') = true ↔ s < e' ∧ e > s')
  ∧ (∀ s e s' e', overlaps s e s' e' = overlaps s' e' s e)
  ∧ (∀ s m e, overlaps s m m e = false ∧ overlaps m e s m = false)
  ∧ overlaps_record (start ex_open) (end_ ex_open)
      (to_object {| id := js "b"; title := js "next";
                    start := end_ ex_open; end_ := Some 1893495600000;
                    requesterName := js "Me"; description := None;
                    type := availability |}) = false.
Proof.
  split; [done|]. split; [|split; [apply overlaps_sym|split; [|done]]].
  - intros s e s' e'. unfold overlaps, num_gt. cbn [num_lt].
    rewrite andb_true_iff, !bool_decide_eq_true. lia.
  - intros s m e. unfold overlaps. rewrite num_gt_lt, !num_lt_irrefl.
    by rewrite andb_false_r.
Qed.

(** ** Serialization *)

Section claims_serialization.
Context `{Platform}.

Lemma fields_to_object a :
  fields (to_object a)
  = (VStr (id a), VStr (title a), VDate (start a), VDate (end_ a),
     VStr (requesterName a), VStr (type_string (type a))).
Proof. by destruct a as [i ti s e rn [d|] ty]. Qed.

(** C8: for every collection of appointments with valid timestamps,
    [deserialize (serialize c)] returns the collection itself: the
    same records, hence the same
    (id, title, start, end, requesterName, type) tuples with the same
    time values. *)
Theorem C8_serialize_deserialize_roundtrip (apts : list Appointment) :
  Forall valid_times apts →
  deserialize (serialize (to_object <$> apts)) = Some (to_object <$> apts)
  ∧ ∀ l, deserialize (serialize (to_object <$> apts)) = Some l →
      fields <$> l
      = (λ a, (VStr (id a), VStr (title a), VDate (start a), VDate (end_ a),
               VStr (requesterName a), VStr (type_string (type a)))) <$> apts.
Proof.
  intros Hvalid.
  assert (Hround : deserialize (serialize (to_object <$> apts))
                   = Some (to_object <$> apts)).
  { rewrite deserialize_serialize.
    - by rewrite reload_valid.
    - eapply Forall_impl; [exact Hvalid|].
      intros a [Hs He]. split; by apply valid_date_wf. }
  split; [done|]. intros l Hl. rewrite Hround in Hl. injection Hl as <-.
  rewrite <- list_fmap_compose. apply list_fmap_ext.
  intros _ a _. apply fields_to_object.
Qed.
End claims_serialization.

Lemma ex_valid_times : Forall valid_times [ex_open; ex_meeting].
Proof.
  repeat constructor; eexists; (split; [reflexivity|]); unfold maxTime; lia.
Qed.

Lemma C8_witness :
  Forall valid_times [ex_open; ex_meeting]
  ∧ @deserialize utc_platform
      (@serialize utc_platform (to_object <$> [ex_open; ex_meeting]))
    = Some (to_object <$> [ex_open; ex_meeting]).
Proof.
  split; [exact ex_valid_times|].
  apply (@C8_serialize_deserialize_roundtrip utc_platform [ex_open; ex_meeting]).
  exact ex_valid_times.
Defined.

(** ** Saving *)

Section claims_save.
Context `{Platform}.

(** C10: [saveAppointment a] on any stored collection.  If a record
    has the id of [a], the first such record is replaced by [a] and
    every other record stays as it was, in place, so the count is
    unchanged; if none has, [a] is appended after the unchanged
    records and the count grows by one.  Either way the result is
    written to the store. *)
Theorem C10_saveAppointment_frame (a : Appointment) (ls : Storage) :
  let current := getAppointments ls in
  let updated := (saveAppointment a ls).1 in
  (saveAppointment a ls).2 = <[LOCAL_STORAGE_KEY := serialize updated]> ls
  ∧ ((∃ x, x ∈ current ∧ has_id (id a) x = true) →
     ∃ l1 x l2, current = l1 ++ x :: l2 ∧ has_id (id a) x = true
       ∧ Forall (λ y, has_id (id a) y = false) l1
       ∧ updated = l1 ++ to_object a :: l2
       ∧ length updated = length current)
  ∧ ((∀ x, x ∈ current → has_id (id a) x = false) →
     updated = current ++ [to_object a]
     ∧ length updated = S (length current)).
Proof.
  intros current updated. split; [done|]. split.
  - intros (x & Hx & Hid).
    destruct (first_with_id (id a) current x Hx Hid)
      as (l1 & y & l2 & Hcur & Hy & Hl1).
    exists l1, y, l2. subst updated.
    rewrite (saveAppointment_replace a ls l1 y l2) by done.
    rewrite Hcur. repeat split; try done.
    rewrite !length_app. done.
  - intros Hnone. subst updated.
    rewrite saveAppointment_append by (by apply Forall_forall).
    split; [done|]. rewrite length_app. cbn [length]. fold current. lia.
Qed.

(** C5, as the code has it: [saveAppointment] validates nothing.
    Whatever the stored records, it writes the collection that holds
    the appointment and returns it.  The overlap check is made by
    the caller: when [handleSubmit] finds an overlap it reports the
    error, does not call [saveAppointment] and leaves the store as
    it was. *)
Theorem C5_saveAppointment_never_validates (a : Appointment) (ls : Storage) :
  (saveAppointment a ls).2 !! LOCAL_STORAGE_KEY
    = Some (serialize (saveAppointment a ls).1)
  ∧ to_object a ∈ (saveAppointment a ls).1
  ∧ ∀ props f env,
      filled f → not_past f env →
      checkAvailability (startDateTime f) (endDateTime f)
        (id <$> existingAppointment props) ls = false →
      error (handleSubmit props f env ls) = overlap_message
      ∧ storage (handleSubmit props f env ls) = ls.
Proof.
  split; [|split].
  - rewrite saveAppointment_storage. apply lookup_insert_eq.
  - unfold saveAppointment. cbn [fst].
    destruct (list_find _ _) as [[i x]|] eqn:Hfind.
    + apply list_find_Some in Hfind as (Hi & _).
      apply list_elem_of_lookup. exists i.
      apply list_lookup_insert_eq. by eapply lookup_lt_Some.
    + apply elem_of_app. right. by apply list_elem_of_singleton.
  - intros props f env Hfilled Hpast Hcheck.
    rewrite handleSubmit_checked by done. by rewrite Hcheck.
Qed.
End claims_save.

(** ** Loading *)

Section claims_load.
Context `{Platform}.

Lemma getAppointments_text ls text :
  ls !! LOCAL_STORAGE_KEY = Some text →
  getAppointments ls = default [] (deserialize text).
Proof.
  intros Hls. unfold getAppointments. rewrite Hls.
  destruct text as [|c r]; [done|]. by destruct (deserialize _).
Qed.

Lemma revive_plain o :
  plain (obj_get o (js "start")) → plain (obj_get o (js "end")) →
  is_Some (revive (VObj o)).
Proof.
  intros Hs He. unfold revive. cbn [member mbind option_bind].
  destruct (obj_get o (js "start")); try done;
    destruct (obj_get o (js "end")); try done; by eexists.
Qed.

(** C9, as the code has it: loading never throws, and the payloads
    it turns into the empty collection are these: nothing stored,
    the empty string, text that [JSON.parse] rejects, JSON text of a
    value that is not an array, and an array with a [null] in it.
    A JSON array of objects whose [start] and [end] are absent,
    [null], booleans or strings comes back with one record for each
    element, whatever the objects hold. *)
Theorem C9_getAppointments_fail_open (ls : Storage) :
  (ls !! LOCAL_STORAGE_KEY = None → getAppointments ls = [])
  ∧ (∀ text, ls !! LOCAL_STORAGE_KEY = Some text →
       text = [] ∨ JSON_parse text = None
       ∨ (∃ v, JSON_parse text = Some v ∧ ∀ l, v ≠ VArr l)
       ∨ (∃ l, JSON_parse text = Some (VArr l) ∧ VNull ∈ l) →
       getAppointments ls = [])
  ∧ (∀ text l, ls !! LOCAL_STORAGE_KEY = Some text →
       JSON_parse text = Some (VArr l) →
       Forall (λ v, ∃ o, v = VObj o ∧ plain (obj_get o (js "start"))
                         ∧ plain (obj_get o (js "end"))) l →
       length (getAppointments ls) = length l).
Proof.
  split; [|split].
  - intros Hls. unfold getAppointments. by rewrite Hls.
  - intros text Hls Hbad. rewrite (getAppointments_text ls text Hls).
    unfold deserialize.
    destruct Hbad as [->|[Hparse|[(v & Hparse & Hv)|(l & Hparse & Hnull)]]].
    + done.
    + by rewrite Hparse.
    + rewrite Hparse. cbn [mbind option_bind].
      destruct v; try done. by destruct (Hv elems).
    + rewrite Hparse. cbn [mbind option_bind].
      assert (Hnone : mapM revive l = None).
      { apply mapM_None, Exists_exists. exists VNull. done. }
      by rewrite Hnone.
  - intros text l Hls Hparse Hobjs. rewrite (getAppointments_text ls text Hls).
    unfold deserialize. rewrite Hparse. cbn [mbind option_bind].
    assert (Hsome : is_Some (mapM revive l)).
    { apply mapM_is_Some. eapply Forall_impl; [exact Hobjs|].
      intros v (o & -> & Hs & He). by apply revive_plain. }
    destruct Hsome as [l' Hl']. rewrite Hl'. cbn [default].
    apply mapM_Some_1, Forall2_length in Hl'. done.
Qed.

Lemma serialize_cons_head a l :
  ∃ r, serialize (to_object a :: l) = 91%N :: 123%N :: 34%N :: r.
Proof.
  unfold serialize. rewrite fmap_cons. cbn [stringify_value].
  rewrite fmap_cons, stringify_value_obj.
  unfold to_object. cbn [app stringify_members].
  unfold QuoteJSONString at 1.
  destruct (stringify_value <$> (VObj <$> l)); cbn [comma_join app]; eauto.
Qed.
End claims_load.

(** ** Booking *)

Section claims_booking.
Context `{Platform}.

Lemma has_id_to_object i a : has_id i (to_object a) = bool_decide (id a = i).
Proof. by destruct a as [i' ti s e rn [d|] ty]. Qed.

Lemma start_to_object a : obj_get (to_object a) (js "start") = VDate (start a).
Proof. by destruct a as [i' ti s e rn [d|] ty]. Qed.

Lemma end_to_object a : obj_get (to_object a) (js "end") = VDate (end_ a).
Proof. by destruct a as [i' ti s e rn [d|] ty]. Qed.

Lemma overlaps_record_to_object s e a :
  overlaps_record s e (to_object a) = overlaps s e (start a) (end_ a).
Proof. by destruct a as [i' ti s' e' rn [d|] ty]. Qed.

Lemma num_lt_Some a b : num_lt a b = true → ∃ x y, a = Some x ∧ b = Some y ∧ x < y.
Proof.
  destruct a as [x|], b as [y|]; try done. cbn [num_lt].
  intros Hlt%bool_decide_eq_true_1. eauto.
Qed.

(** C2: the owner opens a new availability (no existing appointment,
    so no record is excluded) on a range that overlaps a stored
    record [x], of whatever type.  The submission fails and the
    store is left as it was; when the fields are filled in and the
    start is not in the past, the error is the overlap error. *)
Theorem C2_owner_open_overlap_rejected
    (f : FormState) (env : Env) (ls : Storage) (x : object) :
  let props := {| currentUserRole := owner; existingAppointment := None |} in
  x ∈ getAppointments ls →
  overlaps_record (startDateTime f) (endDateTime f) x = true →
  error (handleSubmit props f env ls) ≠ []
  ∧ storage (handleSubmit props f env ls) = ls
  ∧ closed (handleSubmit props f env ls) = false
  ∧ (filled f → not_past f env →
     error (handleSubmit props f env ls) = overlap_message).
Proof.
  intros props Hx Hov.
  destruct (handleSubmit_overlap_unchanged props f env ls x Hx I Hov)
    as (Herr & Hst & Hcl).
  repeat split; try done. intros Hfilled Hpast.
  rewrite handleSubmit_checked by done.
  assert (Hcheck : checkAvailability (startDateTime f) (endDateTime f)
                     (id <$> existingAppointment props) ls = false).
  { apply checkAvailability_false. by exists x. }
  by rewrite Hcheck.
Qed.

(** C1: a submission against a targeted record, with the id of the
    target passed as the excluded id.  The id is not the empty
    string, as no id is that [handleSubmit] assigns: it copies the
    id of the existing appointment or takes [crypto.randomUUID()].
    Overlap with the records that have the target's id is ignored.
    If no record with another id overlaps the candidate range, the
    check reports free, and the booking proceeds: the appointment is
    saved once the fields are filled in and the start is not in the
    past.  If a record with another id overlaps it, the check reports
    taken and the booking is blocked: there is an error, the modal
    stays open and the store is left as it was; the error is the
    overlap error whenever the submission reaches the check. *)
Theorem C1_target_overlap_ignored
    (props : BookingModalProps) (f : FormState) (env : Env) (ls : Storage)
    (target : Appointment) :
  let r := handleSubmit props f env ls in
  existingAppointment props = Some target → id target ≠ [] →
  ((∀ x, x ∈ getAppointments ls → has_id (id target) x = false →
         overlaps_record (startDateTime f) (endDateTime f) x = false) →
   checkAvailability (startDateTime f) (endDateTime f) (Some (id target)) ls = true
   ∧ (filled f → not_past f env →
      error r = [] ∧ closed r = true
      ∧ storage r = (saveAppointment (submit_appointment props f env) ls).2))
  ∧ ((∃ x, x ∈ getAppointments ls ∧ has_id (id target) x = false
           ∧ overlaps_record (startDateTime f) (endDateTime f) x = true) →
     checkAvailability (startDateTime f) (endDateTime f) (Some (id target)) ls = false
     ∧ error r ≠ [] ∧ closed r = false ∧ storage r = ls
     ∧ (filled f → not_past f env → error r = overlap_message)).
Proof.
  intros r Hex Hid. subst r. split.
  - intros Hfree.
    assert (Hcheck : checkAvailability (startDateTime f) (endDateTime f)
                       (Some (id target)) ls = true).
    { apply checkAvailability_true. intros x Hx.
      destruct (has_id (id target) x) eqn:Hx_id; [by left|].
      right. by apply Hfree. }
    split; [exact Hcheck|]. intros Hfilled Hpast.
    rewrite handleSubmit_checked by done.
    rewrite Hex. cbn [fmap option_fmap option_map]. by rewrite Hcheck.
  - intros (x & Hx & Hx_id & Hov).
    assert (Hcheck : checkAvailability (startDateTime f) (endDateTime f)
                       (Some (id target)) ls = false).
    { apply checkAvailability_false. exists x. auto. }
    split; [exact Hcheck|].
    assert (Hother : match existingAppointment props with
                     | Some a => id a = [] ∨ has_id (id a) x = false
                     | None => True
                     end) by (rewrite Hex; by right).
    destruct (handleSubmit_overlap_unchanged props f env ls x Hx Hother Hov)
      as (Herr & Hst & Hcl).
    repeat split; try done. intros Hfilled Hpast.
    rewrite handleSubmit_checked by done.
    rewrite Hex. cbn [fmap option_fmap option_map]. by rewrite Hcheck.
Qed.




End claims_booking.

(** ** Evaluations on the UTC engine *)

Section examples.
#[local] Existing Instance utc_platform.

(** *** The platform model on known values *)

Example toISOString_epoch : toISOString 0 = js "1970-01-01T00:00:00.000Z".
Proof. by vm_compute. Qed.

Example toISOString_last_ms_of_1969 :
  toISOString (-1) = js "1969-12-31T23:59:59.999Z".
Proof. by vm_compute. Qed.

Example toISOString_leap_day :
  toISOString 951782400000 = js "2000-02-29T00:00:00.000Z"
  ∧ toISOString (951782400000 + msPerDay) = js "2000-03-01T00:00:00.000Z"
  ∧ toISOString 4107542399999 = js "2100-02-28T23:59:59.999Z".
Proof. by vm_compute. Qed.

Example toISOString_expanded_years :
  toISOString maxTime = js "+275760-09-13T00:00:00.000Z"
  ∧ toISOString (- maxTime) = js "-271821-04-20T00:00:00.000Z"
  ∧ toISOString (-62167219200000) = js "0000-01-01T00:00:00.000Z"
  ∧ toISOString (-62167219200001) = js "-000001-12-31T23:59:59.999Z"
  ∧ toISOString 253402300800000 = js "+010000-01-01T00:00:00.000Z".
Proof. by vm_compute. Qed.

Example Date_parse_iso_examples :
  Date_parse_iso (js "2024-06-04T14:00:00.123Z") = Some 1717509600123
  ∧ Date_parse_iso (js "2024-02-29T00:00:00.000Z") = Some 1709164800000
  ∧ Date_parse_iso (js "2023-02-29T00:00:00.000Z") = None
  ∧ Date_parse_iso (js "2024-06-04T14:00") = None
  ∧ Date_parse (js "2024-06-04T14:00") = Some 1717509600000.
Proof. by vm_compute. Qed.

Example JSON_parse_examples :
  JSON_parse (jsq " [1, 2.50e-3, true, null, {'a': 'x\nA', 'b': [], 'a': {}} ] ")
  = Some (VArr [VNum 1 0; VNum 250 (-5); VBool true; VNull;
                VObj [(js "a", VObj []); (js "b", VArr [])]])
  ∧ JSON_parse (jsq "'\u0041\/\u00e9'") = Some (VStr [65; 47; 233]%N)
  ∧ JSON_parse (js "[01]") = None
  ∧ JSON_parse (js "[1,]") = None
  ∧ JSON_parse (jsq "{'a':1,}") = None
  ∧ JSON_parse (jsq "{a:1}") = None
  ∧ JSON_parse (js "nul") = None
  ∧ JSON_parse (js "1 2") = None
  ∧ JSON_parse (js "") = None
  ∧ JSON_parse (js "[[[[[[[[]]]]]]]]")
    = Some (VArr [VArr [VArr [VArr [VArr [VArr [VArr [VArr []]]]]]]]).
Proof. by vm_compute. Qed.

(** Keys that are array indices are listed first, in ascending order;
    a numeral with a leading zero, a negative one and [2^32 - 1] are
    not array indices. *)
Example JSON_parse_key_order :
  JSON_parse (jsq "{'b':1,'10':2,'01':3,'9':4,'-1':5,'4294967295':6,'0':7,'9':8}")
  = Some (VObj [(js "0", VNum 7 0); (js "9", VNum 8 0); (js "10", VNum 2 0);
                (js "b", VNum 1 0); (js "01", VNum 3 0); (js "-1", VNum 5 0);
                (js "4294967295", VNum 6 0)])
  ∧ getAppointments (<[LOCAL_STORAGE_KEY := jsq "[{'start':null,'b':true,'1':false}]"]> ∅)
    = [[(js "1", VBool false); (js "start", VDate (Some 0)); (js "b", VBool true);
        (js "end", VDate NaN)]].
Proof. split; by vm_compute. Qed.

Example stringify_value_example :
  stringify_value
    (VArr [VObj [(js "t", VStr (34 :: js "a\b" ++ [10; 31; 55357; 56832; 55357])%N);
                 (js "u", VUndefined); (js "d", VDate (Some 0))];
           VUndefined; VDate NaN; VBool false])
  = jsq "[{'t':'\'a\\b\n\u001f" ++ [55357; 56832]%N
      ++ jsq "\ud83d','d':'1970-01-01T00:00:00.000Z'},null,null,false]".
Proof. by vm_compute. Qed.

Example serialize_example :
  serialize [to_object ex_open]
  = jsq "[{'id':'a1','title':'Open for Booking','start':'2030-01-01T10:00:00.000Z','end':'2030-01-01T10:30:00.000Z','requesterName':'Me','type':'availability'}]".
Proof. by vm_compute. Qed.

Example getAppointments_examples :
  getAppointments ∅ = []
  ∧ getAppointments (<[LOCAL_STORAGE_KEY := js ""]> ∅) = []
  ∧ getAppointments (<[LOCAL_STORAGE_KEY := js "not json"]> ∅) = []
  ∧ getAppointments (<[LOCAL_STORAGE_KEY := js "{}"]> ∅) = []
  ∧ getAppointments (<[LOCAL_STORAGE_KEY := js "[1, null]"]> ∅) = []
  ∧ getAppointments (<[LOCAL_STORAGE_KEY := js "[1]"]> ∅)
    = [[(js "start", VDate NaN); (js "end", VDate NaN)]]
  ∧ getAppointments (<[LOCAL_STORAGE_KEY := jsq "[{'start':null,'x':'y','end':5}]"]> ∅)
    = [[(js "start", VDate (Some 0)); (js "x", VStr (js "y"));
        (js "end", VDate (Some 5))]]
  ∧ getAppointments ex_store = to_object <$> [ex_open; ex_meeting].
Proof. by vm_compute. Qed.

(** The scenario of the specification: the owner opens 10:00-10:30;
    a colleague books it for forty-five minutes, which leaves one
    record, a meeting from 10:00 to 10:45; a booking of 10:15-10:45
    against another slot is blocked by it; the owner deletes the
    meeting and the store is empty. *)
Example scenario :
  let opened :=
    handleSubmit {| currentUserRole := owner; existingAppointment := None |}
      ex_opening ex_env ∅ in
  let slot :=
    {| id := js "fresh-uuid"; title := js "Open for Booking";
       start := Some 1893492000000; end_ := Some 1893493800000;
       requesterName := js "Me"; description := None; type := availability |} in
  let booked :=
    handleSubmit {| currentUserRole := colleague; existingAppointment := Some slot |}
      ex_longer ex_env (storage opened) in
  let meeting_made :=
    {| id := js "fresh-uuid"; title := js "Code review";
       start := Some 1893492000000; end_ := Some 1893494700000;
       requesterName := js "Bob"; description := None; type := meeting |} in
  let blocked :=
    handleSubmit {| currentUserRole := colleague; existingAppointment := Some ex_open |}
      ex_late ex_env (storage booked) in
  let deleted := deleteAppointment (js "fresh-uuid") (storage blocked) in
  error opened = [] ∧ getAppointments (storage opened) = [to_object slot]
  ∧ error booked = [] ∧ getAppointments (storage booked) = [to_object meeting_made]
  ∧ error blocked = overlap_message ∧ storage blocked = storage booked
  ∧ deleted.1 = [] ∧ getAppointments deleted.2 = [].
Proof.
  cbv zeta. repeat split; by vm_compute.
Qed.

(** *** The claims on examples *)

(** C5 fails as stated: the overlap check finds the clash with the
    open slot, and [saveAppointment] persists the clashing
    appointment all the same. *)
Lemma C5_counterexample :
  checkAvailability (start ex_clash) (end_ ex_clash) None ex_store = false
  ∧ (saveAppointment ex_clash ex_store).2 ≠ ex_store
  ∧ getAppointments (saveAppointment ex_clash ex_store).2
    = to_object <$> [ex_open; ex_meeting; ex_clash].
Proof.
  split; [by vm_compute|]. split; [|by vm_compute].
  apply (bool_decide_eq_false_1 _). by vm_compute.
Qed.

Lemma C5_witness :
  filled ex_form ∧ not_past ex_form ex_env
  ∧ checkAvailability (startDateTime ex_form) (endDateTime ex_form) None ex_store
    = false
  ∧ storage (handleSubmit {| currentUserRole := owner;
                             existingAppointment := None |}
               ex_form ex_env ex_store) = ex_store.
Proof.
  assert (Hfilled : filled ex_form) by (by vm_compute).
  assert (Hpast : not_past ex_form ex_env) by (by vm_compute).
  assert (Hcheck : checkAvailability (startDateTime ex_form)
            (endDateTime ex_form) None ex_store = false) by (by vm_compute).
  split; [done|]. split; [done|]. split; [done|].
  destruct (C5_saveAppointment_never_validates ex_booked ex_store)
    as (_ & _ & Hcaller).
  apply (Hcaller {| currentUserRole := owner; existingAppointment := None |}
           ex_form ex_env Hfilled Hpast Hcheck).
Defined.

Lemma C10_witness :
  (∃ x, x ∈ getAppointments ex_store ∧ has_id (id ex_booked) x = true)
  ∧ (saveAppointment ex_booked ex_store).1
    = to_object <$> [ex_booked; ex_meeting]
  ∧ (∀ x, x ∈ getAppointments ex_store → has_id (id ex_clash) x = false)
  ∧ (saveAppointment ex_clash ex_store).1
    = getAppointments ex_store ++ [to_object ex_clash].
Proof.
  assert (Hhas : ∃ x, x ∈ getAppointments ex_store
                      ∧ has_id (id ex_booked) x = true).
  { exists (to_object ex_open). split; [|by vm_compute].
    apply list_elem_of_In. vm_compute. by left. }
  assert (Hnone : ∀ x, x ∈ getAppointments ex_store
                       → has_id (id ex_clash) x = false).
  { intros x Hx. apply list_elem_of_In in Hx. vm_compute in Hx.
    destruct Hx as [<-|[<-|[]]]; by vm_compute. }
  split; [done|]. split; [by vm_compute|]. split; [done|].
  destruct (C10_saveAppointment_frame ex_clash ex_store) as (_ & _ & Happend).
  apply (Happend Hnone).
Defined.

(** C9 fails as stated: [[{}]] is not a serialized appointment
    collection, and loading it gives a record. *)
Lemma C9_counterexample :
  ¬ well_formed_payload (js "[{}]")
  ∧ getAppointments (<[LOCAL_STORAGE_KEY := js "[{}]"]> ∅)
    = [[(js "start", VDate NaN); (js "end", VDate NaN)]].
Proof.
  split; [|by vm_compute].
  intros ([|a l] & _ & Htext).
  - by vm_compute in Htext.
  - rewrite fmap_cons in Htext.
    destruct (serialize_cons_head a (to_object <$> l)) as [r Hr].
    rewrite Hr in Htext. by vm_compute in Htext.
Qed.

Lemma C1_witness :
  let props := {| currentUserRole := colleague;
                  existingAppointment := Some ex_open |} in
  existingAppointment props = Some ex_open ∧ id ex_open ≠ []
  ∧ (∀ x, x ∈ getAppointments ex_store → has_id (id ex_open) x = false →
          overlaps_record (startDateTime ex_form) (endDateTime ex_form) x = false)
  ∧ filled ex_form ∧ not_past ex_form ex_env
  ∧ checkAvailability (startDateTime ex_form) (endDateTime ex_form)
      (Some (id ex_open)) ex_store = true
  ∧ error (handleSubmit props ex_form ex_env ex_store) = [].
Proof.
  intros props.
  assert (Hid : id ex_open ≠ []) by (by vm_compute).
  assert (Hfilled : filled ex_form) by (by vm_compute).
  assert (Hpast : not_past ex_form ex_env) by (by vm_compute).
  assert (Hfree : ∀ x, x ∈ getAppointments ex_store →
            has_id (id ex_open) x = false →
            overlaps_record (startDateTime ex_form) (endDateTime ex_form) x = false).
  { intros x Hx. apply list_elem_of_In in Hx. vm_compute in Hx.
    destruct Hx as [<-|[<-|[]]]; by vm_compute. }
  destruct (C1_target_overlap_ignored props ex_form ex_env ex_store ex_open
              eq_refl Hid) as [Hproceeds _].
  destruct (Hproceeds Hfree) as [Hcheck Hsaved].
  destruct (Hsaved Hfilled Hpast) as [Herr _].
  split; [reflexivity|]. split; [exact Hid|]. split; [exact Hfree|].
  split; [exact Hfilled|]. split; [exact Hpast|]. split; [exact Hcheck|].
  exact Herr.
Defined.

Lemma C2_witness :
  to_object ex_open ∈ getAppointments ex_store
  ∧ overlaps_record (startDateTime ex_form) (endDateTime ex_form)
      (to_object ex_open) = true
  ∧ storage (handleSubmit {| currentUserRole := owner;
                             existingAppointment := None |}
               ex_form ex_env ex_store) = ex_store.
Proof.
  assert (Hin : to_object ex_open ∈ getAppointments ex_store).
  { apply list_elem_of_In. vm_compute. by left. }
  assert (Hov : overlaps_record (startDateTime ex_form) (endDateTime ex_form)
                  (to_object ex_open) = true) by (by vm_compute).
  split; [done|]. split; [done|].
  apply (C2_owner_open_overlap_rejected ex_form ex_env ex_store
           (to_object ex_open) Hin Hov).
Defined.



(** C4 on the code: the owner edits the label of the open slot, the
    submission passes every check, and the record saved in its place
    is a meeting, not an availability. *)
Lemma C4_owner_edit_saves_meeting :
  let props := {| currentUserRole := owner;
                  existingAppointment := Some ex_open |} in
  type ex_open = availability
  ∧ error (handleSubmit props ex_edit ex_env ex_store) = []
  ∧ getAppointments (storage (handleSubmit props ex_edit ex_env ex_store))
    = to_object <$>
        [{| id := id ex_open; title := js "Office hours";
            start := start ex_open; end_ := end_ ex_open;
            requesterName := js "Me"; description := None;
            type := meeting |};
         ex_meeting].
Proof. by vm_compute. Qed.



Lemma C9_witness :
  (<[LOCAL_STORAGE_KEY := js "{}"]> (∅ : Storage)) !! LOCAL_STORAGE_KEY
    = Some (js "{}")
  ∧ (∃ v, JSON_parse (js "{}") = Some v ∧ ∀ l, v ≠ VArr l)
  ∧ getAppointments (<[LOCAL_STORAGE_KEY := js "{}"]> ∅) = [].
Proof.
  assert (Hls : (<[LOCAL_STORAGE_KEY := js "{}"]> (∅ : Storage))
                  !! LOCAL_STORAGE_KEY = Some (js "{}")) by (by vm_compute).
  assert (Hv : ∃ v, JSON_parse (js "{}") = Some v ∧ ∀ l, v ≠ VArr l).
  { exists (VObj []). split; [by vm_compute|done]. }
  split; [done|]. split; [done|].
  destruct (C9_getAppointments_fail_open (<[LOCAL_STORAGE_KEY := js "{}"]> ∅))
    as (_ & Hbad & _).
  apply (Hbad (js "{}") Hls). right. right. left. exact Hv.
Defined.
End examples.

(** * Further properties *)

(** ** Collections of appointments in the store *)

Section typed_store.
Context `{Platform}.

(** The timestamps of stored appointments are time values of [Date]
    objects. *)
Lemma stored_wf ls apts :
  getAppointments ls = to_object <$> apts → Forall wf_times apts.
Proof.
  intros Hstored. apply Forall_forall. intros x Hx.
  assert (Hin : to_object x ∈ getAppointments ls).
  { rewrite Hstored. by apply list_elem_of_fmap_2. }
  destruct (deserialize_dates ls _ Hin) as (ds & de & Hds & Hde & Hwfs & Hwfe).
  rewrite start_to_object in Hds. rewrite end_to_object in Hde.
  injection Hds as <-. injection Hde as <-. by split.
Qed.

Lemma list_find_to_object i apts :
  list_find (λ o, has_id i o) (to_object <$> apts)
  = prod_map Datatypes.id to_object <$> list_find (λ x, id x = i) apts.
Proof.
  rewrite list_find_fmap. f_equal. apply list_find_ext.
  intros x. unfold compose. rewrite has_id_to_object.
  split; [apply bool_decide_unpack | apply bool_decide_pack].
Qed.

Lemma saveAppointment_typed a ls apts :
  getAppointments ls = to_object <$> apts →
  (saveAppointment a ls).1 = to_object <$> upsert a apts.
Proof.
  intros Hstored. unfold saveAppointment, upsert. cbn [fst].
  rewrite Hstored, list_find_to_object.
  destruct (list_find _ apts) as [[n x]|]; cbn [fmap option_fmap option_map prod_map].
  - by rewrite list_fmap_insert.
  - by rewrite fmap_app.
Qed.

Lemma deleteAppointment_typed i ls apts :
  getAppointments ls = to_object <$> apts →
  (deleteAppointment i ls).1 = to_object <$> filter (λ x, id x ≠ i) apts.
Proof.
  intros Hstored. unfold deleteAppointment. cbn [fst]. rewrite Hstored.
  clear Hstored. induction apts as [|x apts IH]; [done|].
  rewrite fmap_cons. destruct (decide (id x = i)) as [Hid|Hid].
  - rewrite (filter_cons_False (λ x, id x ≠ i)) by (by intros ?).
    rewrite filter_cons_False; [exact IH|].
    rewrite has_id_to_object, bool_decide_eq_true_2 by done. by intros Hno; apply Hno.
  - rewrite (filter_cons_True (λ x, id x ≠ i)) by done.
    rewrite filter_cons_True, fmap_cons; [by rewrite IH|].
    rewrite has_id_to_object, bool_decide_eq_false_2 by done. by intros [].
Qed.

Lemma valid_times_wf l : Forall valid_times l → Forall wf_times l.
Proof.
  intros Hvalid. eapply Forall_impl; [exact Hvalid|].
  intros x [Hs He]. split; by apply valid_date_wf.
Qed.

Lemma getAppointments_valid ls l :
  Forall valid_times l →
  getAppointments (<[LOCAL_STORAGE_KEY := serialize (to_object <$> l)]> ls)
  = to_object <$> l.
Proof.
  intros Hvalid. rewrite getAppointments_stored by (by apply valid_times_wf).
  by rewrite reload_valid.
Qed.

Lemma valid_times_upsert a apts :
  valid_times a → Forall valid_times apts → Forall valid_times (upsert a apts).
Proof.
  intros Ha Hvalid. unfold upsert. destruct (list_find _ apts) as [[n x]|].
  - by apply Forall_insert.
  - apply Forall_app. split; [done|]. by constructor.
Qed.
End typed_store.

(** ** Deleting and saving *)

Section more_store.
Context `{Platform}.

(** X1: [deleteAppointment i] returns the stored records that do not
    have the id [i], and only those, in their order; when no record
    has the id the collection comes back as it was.  It writes the
    result under the appointments key and touches no other key. *)
Theorem X1_deleteAppointment_removes_exactly (i : jstring) (ls : Storage) :
  let current := getAppointments ls in
  let updated := (deleteAppointment i ls).1 in
  (∀ x, x ∈ updated ↔ x ∈ current ∧ has_id i x = false)
  ∧ updated `sublist_of` current
  ∧ ((∀ x, x ∈ current → has_id i x = false) → updated = current)
  ∧ (deleteAppointment i ls).2 !! LOCAL_STORAGE_KEY = Some (serialize updated)
  ∧ ∀ k, k ≠ LOCAL_STORAGE_KEY → (deleteAppointment i ls).2 !! k = ls !! k.
Proof.
  intros current updated. subst updated. unfold deleteAppointment. cbn [fst snd].
  fold current. split; [|split; [|split; [|split]]].
  - intros x. rewrite list_elem_of_filter, Is_true_false. tauto.
  - apply sublist_filter.
  - intros Hnone. induction current as [|x l IH]; [done|].
    rewrite filter_cons_True.
    + f_equal. apply IH. intros y Hy. apply Hnone. by right.
    + apply Is_true_false_2, Hnone. by left.
  - apply lookup_insert_eq.
  - intros k Hk. by apply lookup_insert_ne.
Qed.

(** X2: on a store of appointments with valid timestamps, what
    [deleteAppointment] returns is what [getAppointments] then reads,
    and deleting the same id again changes nothing, neither in the
    result nor in the store. *)
Theorem X2_deleteAppointment_persists_idempotent
    (i : jstring) (ls : Storage) (apts : list Appointment) :
  getAppointments ls = to_object <$> apts → Forall valid_times apts →
  getAppointments (deleteAppointment i ls).2 = (deleteAppointment i ls).1
  ∧ (deleteAppointment i ls).1 = to_object <$> filter (λ x, id x ≠ i) apts
  ∧ deleteAppointment i (deleteAppointment i ls).2 = deleteAppointment i ls.
Proof.
  intros Hstored Hvalid.
  pose proof (deleteAppointment_typed i ls apts Hstored) as Hdel.
  assert (Hvalid' : Forall valid_times (filter (λ x, id x ≠ i) apts)).
  { apply Forall_forall. intros x [_ Hx]%list_elem_of_filter.
    rewrite Forall_forall in Hvalid. auto. }
  assert (Hread : getAppointments (deleteAppointment i ls).2
                  = (deleteAppointment i ls).1).
  { rewrite Hdel. unfold deleteAppointment at 1. cbn [snd].
    change (filter _ (getAppointments ls)) with (deleteAppointment i ls).1.
    rewrite Hdel. by apply getAppointments_valid. }
  split; [done|]. split; [done|].
  assert (Hagain : (deleteAppointment i (deleteAppointment i ls).2).1
                   = (deleteAppointment i ls).1).
  { rewrite (deleteAppointment_typed i _ (filter (λ x, id x ≠ i) apts))
      by (by rewrite Hread).
    rewrite Hdel. f_equal. rewrite list_filter_filter.
    apply list_filter_iff. tauto. }
  change (deleteAppointment i (deleteAppointment i ls).2)
    with ((deleteAppointment i (deleteAppointment i ls).2).1,
          <[LOCAL_STORAGE_KEY :=
              serialize (deleteAppointment i (deleteAppointment i ls).2).1]>
            (deleteAppointment i ls).2).
  rewrite Hagain. unfold deleteAppointment at 3. cbn [snd].
  change (filter _ (getAppointments ls)) with (deleteAppointment i ls).1.
  rewrite insert_insert_eq. reflexivity.
Qed.

(** X3: on a store of appointments with valid timestamps, an
    appointment with valid timestamps that [saveAppointment] has
    written is read back by [getAppointments] together with the
    others: the collection read is the collection returned. *)
Theorem X3_saveAppointment_read_back
    (a : Appointment) (ls : Storage) (apts : list Appointment) :
  getAppointments ls = to_object <$> apts →
  Forall valid_times apts → valid_times a →
  getAppointments (saveAppointment a ls).2 = (saveAppointment a ls).1
  ∧ to_object a ∈ getAppointments (saveAppointment a ls).2.
Proof.
  intros Hstored Hvalid Ha.
  assert (Hread : getAppointments (saveAppointment a ls).2
                  = (saveAppointment a ls).1).
  { rewrite saveAppointment_storage, (saveAppointment_typed a ls apts Hstored).
    apply getAppointments_valid. by apply valid_times_upsert. }
  split; [done|]. rewrite Hread.
  unfold saveAppointment. cbn [fst].
  destruct (list_find _ _) as [[n x]|] eqn:Hfind.
  - apply list_find_Some in Hfind as (Hn & _).
    apply list_elem_of_lookup. exists n.
    apply list_lookup_insert_eq. by eapply lookup_lt_Some.
  - apply elem_of_app. right. by apply list_elem_of_singleton.
Qed.

Lemma wf_times_upsert a apts :
  wf_times a → Forall wf_times apts → Forall wf_times (upsert a apts).
Proof.
  intros Ha Hwf. unfold upsert. destruct (list_find _ apts) as [[n x]|].
  - by apply Forall_insert.
  - apply Forall_app. split; [done|]. by constructor.
Qed.

Lemma elem_of_upsert a apts : a ∈ upsert a apts.
Proof.
  unfold upsert. destruct (list_find _ apts) as [[n x]|] eqn:Hfind.
  - apply list_find_Some in Hfind as (Hn & _).
    apply list_elem_of_lookup. exists n.
    apply list_lookup_insert_eq. by eapply lookup_lt_Some.
  - apply elem_of_app. right. by apply list_elem_of_singleton.
Qed.

(** X4: an Invalid Date does not survive the store.  It is written
    as [null], and [new Date(null)] is the epoch: an appointment
    saved with an Invalid Date as its start is read back with the
    same id, title and end but starting at time 0, and no record
    read back after a save has an Invalid Date as start or end. *)
Theorem X4_invalid_date_reloads_as_epoch
    (a : Appointment) (ls : Storage) (apts : list Appointment) :
  getAppointments ls = to_object <$> apts →
  wf_times a → start a = NaN →
  to_object (reload a) ∈ getAppointments (saveAppointment a ls).2
  ∧ start (reload a) = Some 0
  ∧ id (reload a) = id a ∧ title (reload a) = title a
  ∧ ∀ o, o ∈ getAppointments (saveAppointment a ls).2 →
      ∃ s e, obj_get o (js "start") = VDate (Some s)
             ∧ obj_get o (js "end") = VDate (Some e).
Proof.
  intros Hstored Ha Hnan.
  assert (Hread : getAppointments (saveAppointment a ls).2
                  = to_object <$> (reload <$> upsert a apts)).
  { rewrite saveAppointment_storage, (saveAppointment_typed a ls apts Hstored).
    apply getAppointments_stored, wf_times_upsert; [done|].
    by eapply stored_wf. }
  rewrite Hread. split; [|split; [|split; [done|split; [done|]]]].
  - do 2 apply list_elem_of_fmap_2. apply elem_of_upsert.
  - cbn. by rewrite Hnan.
  - intros o (y & -> & (x & -> & _)%list_elem_of_fmap)%list_elem_of_fmap.
    rewrite start_to_object, end_to_object. cbn [reload start end_].
    destruct (start x), (end_ x); cbn [reload_date]; eauto.
Qed.
End more_store.

Section more_store_invariants.
Context `{Platform}.

Lemma count_id_app k (l1 l2 : list object) :
  length (filter (λ x, has_id k x) (l1 ++ l2))
  = (length (filter (λ x, has_id k x) l1)
     + length (filter (λ x, has_id k x) l2))%nat.
Proof. by rewrite filter_app, length_app. Qed.

Lemma count_id_cons k (x : object) l :
  length (filter (λ x, has_id k x) (x :: l))
  = ((if has_id k x then 1 else 0)
     + length (filter (λ x, has_id k x) l))%nat.
Proof.
  destruct (has_id k x) eqn:Hx.
  - by rewrite filter_cons_True by (by apply Is_true_true_2).
  - by rewrite filter_cons_False by (by apply Is_true_false_2).
Qed.

Lemma count_id_none k (l : list object) :
  Forall (λ y, has_id k y = false) l →
  length (filter (λ x, has_id k x) l) = 0%nat.
Proof.
  induction 1 as [|x l Hx _ IH]; [done|]. by rewrite count_id_cons, Hx, IH.
Qed.

Lemma count_id_filter k (P : object → Prop) `{!∀ x, Decision (P x)} l :
  (length (filter (λ x, has_id k x) (filter P l))
   ≤ length (filter (λ x, has_id k x) l))%nat.
Proof.
  induction l as [|x l IH]; [done|].
  rewrite (count_id_cons k x l). destruct (decide (P x)).
  - rewrite (filter_cons_True P) by done. rewrite count_id_cons. lia.
  - rewrite (filter_cons_False P) by done. lia.
Qed.

(** X5: if no id is borne by two stored records, none is after
    [saveAppointment] or [deleteAppointment]: both keep ids unique. *)
Theorem X5_unique_ids_kept (a : Appointment) (i : jstring) (ls : Storage) :
  unique_ids (getAppointments ls) →
  unique_ids (saveAppointment a ls).1 ∧ unique_ids (deleteAppointment i ls).1.
Proof.
  intros Huniq. split; intros k.
  - unfold saveAppointment. cbn [fst].
    destruct (list_find _ _) as [[n x]|] eqn:Hfind.
    + apply list_find_Some in Hfind as (Hn & Hx%Is_true_true_1 & _).
      rewrite insert_take_drop by (by eapply lookup_lt_Some).
      specialize (Huniq k). rewrite <- (take_drop_middle _ n x Hn) in Huniq.
      rewrite count_id_app, count_id_cons in Huniq.
      rewrite count_id_app, count_id_cons, has_id_to_object.
      case_bool_decide as Hk; [|destruct (has_id k x); lia].
      subst k. rewrite Hx in Huniq. lia.
    + apply list_find_None in Hfind.
      rewrite count_id_app, count_id_cons, has_id_to_object. cbn [filter length].
      case_bool_decide as Hk; [|specialize (Huniq k); cbn; lia].
      subst k. rewrite count_id_none; [cbn; lia|].
      eapply Forall_impl; [exact Hfind|]. intros y. apply Is_true_false_1.
  - unfold deleteAppointment. cbn [fst]. specialize (Huniq k).
    etrans; [|exact Huniq]. apply count_id_filter.
Qed.
End more_store_invariants.

Section more_store_composition.
Context `{Platform}.

Lemma upsert_fresh a apts :
  Forall (λ x, id x ≠ id a) apts → upsert a apts = apts ++ [a].
Proof.
  intros Hfresh. unfold upsert.
  by rewrite (proj2 (list_find_None (λ x, id x = id a) apts)).
Qed.

Lemma upsert_upsert a b apts :
  id a = id b → upsert b (upsert a apts) = upsert b apts.
Proof.
  intros Hid. unfold upsert at 2 3. rewrite Hid.
  destruct (list_find _ apts) as [[n x]|] eqn:Hfind.
  - apply list_find_Some in Hfind as (Hn & Hx & Hbefore).
    assert (Hlt : (n < length apts)%nat) by (by eapply lookup_lt_Some).
    unfold upsert.
    rewrite (proj2 (list_find_Some (λ x, id x = id b) (<[n:=a]> apts) n a)).
    + by rewrite list_insert_insert_eq.
    + split; [by apply list_lookup_insert_eq|]. split; [done|].
      intros j y Hj Hjn. rewrite list_lookup_insert_ne in Hj by lia.
      by eapply Hbefore.
  - apply list_find_None in Hfind. unfold upsert.
    rewrite (proj2 (list_find_Some (λ x, id x = id b) (apts ++ [a])
                      (length apts) a)).
    + replace (length apts) with (length apts + 0)%nat by lia.
      by rewrite insert_app_r.
    + split; [by rewrite lookup_app_r, Nat.sub_diag by lia|].
      split; [done|]. intros j y Hj Hjn.
      rewrite lookup_app_l in Hj by done.
      rewrite Forall_forall in Hfind. eapply Hfind.
      by eapply list_elem_of_lookup_2.
Qed.

(** X6: on a store of appointments with valid timestamps, saving an
    appointment whose id is not in the store and then deleting that id
    gives back the collection that was stored. *)
Theorem X6_save_then_delete_restores
    (a : Appointment) (ls : Storage) (apts : list Appointment) :
  getAppointments ls = to_object <$> apts →
  Forall valid_times apts → valid_times a →
  Forall (λ x, id x ≠ id a) apts →
  (deleteAppointment (id a) (saveAppointment a ls).2).1 = getAppointments ls
  ∧ getAppointments (deleteAppointment (id a) (saveAppointment a ls).2).2
    = getAppointments ls.
Proof.
  intros Hstored Hvalid Ha Hfresh.
  assert (Hread : getAppointments (saveAppointment a ls).2
                  = to_object <$> (apts ++ [a])).
  { rewrite saveAppointment_storage, (saveAppointment_typed a ls apts Hstored).
    rewrite upsert_fresh by done. apply getAppointments_valid.
    apply Forall_app. split; [done|]. by constructor. }
  assert (Hdel : (deleteAppointment (id a) (saveAppointment a ls).2).1
                 = to_object <$> apts).
  { rewrite (deleteAppointment_typed _ _ _ Hread). f_equal.
    rewrite filter_app, filter_cons_False, filter_nil, app_nil_r
      by (by intros Hne; apply Hne).
    clear -Hfresh. induction Hfresh as [|x l Hx _ IH]; [done|].
    by rewrite filter_cons_True, IH. }
  split; [by rewrite Hdel|].
  change (deleteAppointment (id a) (saveAppointment a ls).2).2
    with (<[LOCAL_STORAGE_KEY :=
              serialize (deleteAppointment (id a) (saveAppointment a ls).2).1]>
            (saveAppointment a ls).2).
  rewrite Hdel, Hstored. by apply getAppointments_valid.
Qed.

(** X7: the last write wins.  On a store of appointments, saving an
    appointment and then another one with the same id leaves the
    result and the store that saving the second one alone gives. *)
Theorem X7_saveAppointment_last_write_wins
    (a b : Appointment) (ls : Storage) (apts : list Appointment) :
  getAppointments ls = to_object <$> apts →
  Forall valid_times apts → valid_times a → id a = id b →
  saveAppointment b (saveAppointment a ls).2 = saveAppointment b ls.
Proof.
  intros Hstored Hvalid Ha Hid.
  assert (Hread : getAppointments (saveAppointment a ls).2
                  = to_object <$> upsert a apts).
  { rewrite saveAppointment_storage, (saveAppointment_typed a ls apts Hstored).
    apply getAppointments_valid. by apply valid_times_upsert. }
  assert (Hfst : (saveAppointment b (saveAppointment a ls).2).1
                 = (saveAppointment b ls).1).
  { rewrite (saveAppointment_typed b _ _ Hread).
    rewrite (saveAppointment_typed b _ _ Hstored).
    by rewrite upsert_upsert. }
  rewrite (surjective_pairing (saveAppointment b (saveAppointment a ls).2)).
  rewrite (surjective_pairing (saveAppointment b ls)).
  rewrite !(saveAppointment_storage b), Hfst.
  rewrite (saveAppointment_storage a), insert_insert_eq. reflexivity.
Qed.

(** X8: a stored payload that cannot be read (JSON.parse or the
    mapping over it throws) is lost at the next write:
    [saveAppointment] replaces it by the collection of the one
    appointment saved, [deleteAppointment] by the empty array. *)
Theorem X8_unreadable_payload_overwritten
    (a : Appointment) (i : jstring) (ls : Storage) (text : jstring) :
  ls !! LOCAL_STORAGE_KEY = Some text → deserialize text = None →
  (saveAppointment a ls).1 = [to_object a]
  ∧ (saveAppointment a ls).2 !! LOCAL_STORAGE_KEY
    = Some (serialize [to_object a])
  ∧ (deleteAppointment i ls).1 = []
  ∧ (deleteAppointment i ls).2 !! LOCAL_STORAGE_KEY = Some (js "[]").
Proof.
  intros Hls Hbad.
  assert (Hcur : getAppointments ls = []).
  { by rewrite (getAppointments_text ls text Hls), Hbad. }
  unfold saveAppointment, deleteAppointment. rewrite Hcur. cbn [fst snd].
  rewrite !lookup_insert_eq. by repeat split.
Qed.
End more_store_composition.

(** ** The availability check *)

Section more_availability.
Context `{Platform}.

Lemma overlaps_nan s e s' e' : s = NaN ∨ e = NaN → overlaps s e s' e' = false.
Proof.
  unfold overlaps, num_gt. intros [-> | ->]; [done|].
  destruct s' as [y|]; cbn [num_lt]; by rewrite andb_false_r.
Qed.

Lemma checkAvailability_nan s e ex ls :
  s = NaN ∨ e = NaN → checkAvailability s e ex ls = true.
Proof.
  intros Hnan. apply checkAvailability_true. intros x _. right.
  by apply overlaps_nan.
Qed.

Lemma upsert_inv a apts y : y ∈ upsert a apts → y = a ∨ y ∈ apts.
Proof.
  unfold upsert. destruct (list_find _ apts) as [[n x]|].
  - intros (j & Hj)%list_elem_of_lookup.
    destruct (decide (j = n)) as [->|Hne].
    + assert (Hlt : (n < length apts)%nat).
      { apply lookup_lt_Some in Hj. by rewrite length_insert in Hj. }
      rewrite list_lookup_insert_eq in Hj by done. left. congruence.
    + rewrite list_lookup_insert_ne in Hj by done. right.
      by eapply list_elem_of_lookup_2.
  - intros [Hy | Hy%list_elem_of_singleton]%elem_of_app; auto.
Qed.

Lemma upsert_others a apts y : y ∈ apts → id y ≠ id a → y ∈ upsert a apts.
Proof.
  intros Hy Hid. unfold upsert.
  destruct (list_find _ apts) as [[n x]|] eqn:Hfind.
  - apply list_find_Some in Hfind as (Hn & Hx & _).
    apply list_elem_of_lookup in Hy as (j & Hj).
    apply list_elem_of_lookup. exists j.
    rewrite list_lookup_insert_ne; [done|]. intros ->. congruence.
  - apply elem_of_app. by left.
Qed.

(** X9: a candidate range whose start or end is an Invalid Date is
    reported free, whatever the store holds and whatever id is
    excluded: comparisons with [NaN] are false. *)
Theorem X9_checkAvailability_invalid_date_free
    (s e : Date) (ex : option jstring) (ls : Storage) :
  s = NaN ∨ e = NaN → checkAvailability s e ex ls = true.
Proof.
  intros Hnan. apply checkAvailability_true. intros x _. right.
  unfold overlaps_record, getTime. by apply overlaps_nan.
Qed.

(** X10: a range that is free stays free when it is narrowed: if
    [s, e) is reported free, so is every [s', e') with [s ≤ s'] and
    [e' ≤ e], with the same exclusion. *)
Theorem X10_checkAvailability_narrowed
    (s e s' e' : Z) (ex : option jstring) (ls : Storage) :
  s ≤ s' → e' ≤ e →
  checkAvailability (Some s) (Some e) ex ls = true →
  checkAvailability (Some s') (Some e') ex ls = true.
Proof.
  intros Hs He Hfree. apply checkAvailability_true. intros x Hx.
  destruct (proj1 (checkAvailability_true _ _ _ _) Hfree x Hx) as [Hex|Hno];
    [by left|right].
  revert Hno. unfold overlaps_record, overlaps, num_gt, getTime.
  destruct (time_of (obj_get x (js "start"))) as [xs|],
           (time_of (obj_get x (js "end"))) as [xe|]; cbn [num_lt];
    rewrite ?andb_false_r; try done.
  rewrite !andb_false_iff, !bool_decide_eq_false. lia.
Qed.

(** X11: excluding an id can only free a range.  What is free with
    nothing excluded is free with any id excluded; and excluding the
    empty string, or an id that no stored record bears, is excluding
    nothing. *)
Theorem X11_checkAvailability_exclusion
    (s e : Date) (i : jstring) (ls : Storage) :
  (checkAvailability s e None ls = true →
   checkAvailability s e (Some i) ls = true)
  ∧ ((i = [] ∨ ∀ x, x ∈ getAppointments ls → has_id i x = false) →
     checkAvailability s e (Some i) ls = checkAvailability s e None ls).
Proof.
  split.
  - intros Hfree. apply checkAvailability_true. intros x Hx.
    destruct (proj1 (checkAvailability_true _ _ _ _) Hfree x Hx); [done|].
    by right.
  - intros Hnone. apply eq_true_iff_eq. rewrite !checkAvailability_true.
    split; intros Hfree x Hx; (destruct (Hfree x Hx) as [Hex|Hno]; [|by right]).
    + destruct Hex as [Hi Hid]. destruct Hnone as [->|Hnone]; [done|].
      rewrite (Hnone x Hx) in Hid. done.
    + done.
Qed.

(** X12: on a store of appointments with valid timestamps, once an
    appointment with [start < end] is saved its own range is taken
    for any other request, while for a request that excludes its id
    (an edit of that appointment) every range is exactly as free as
    it was before the save. *)
Theorem X12_saved_range_is_taken
    (a : Appointment) (ls : Storage) (apts : list Appointment) :
  getAppointments ls = to_object <$> apts →
  Forall valid_times apts → valid_times a →
  num_lt (start a) (end_ a) = true → id a ≠ [] →
  checkAvailability (start a) (end_ a) None (saveAppointment a ls).2 = false
  ∧ ∀ s e, checkAvailability s e (Some (id a)) (saveAppointment a ls).2
           = checkAvailability s e (Some (id a)) ls.
Proof.
  intros Hstored Hvalid Ha Hlt Hnil.
  assert (Hread : getAppointments (saveAppointment a ls).2
                  = to_object <$> upsert a apts).
  { rewrite saveAppointment_storage, (saveAppointment_typed a ls apts Hstored).
    apply getAppointments_valid. by apply valid_times_upsert. }
  split.
  - apply checkAvailability_false. exists (to_object a).
    split; [|split; [done|]].
    + rewrite Hread. apply list_elem_of_fmap_2, elem_of_upsert.
    + rewrite overlaps_record_to_object. unfold overlaps, num_gt, getTime.
      by rewrite Hlt.
  - intros s e. apply eq_true_iff_eq. rewrite !checkAvailability_true.
    rewrite Hread, Hstored.
    split; intros Hfree x (y & -> & Hy)%list_elem_of_fmap;
      rewrite has_id_to_object;
      (destruct (decide (id y = id a)) as [Hid|Hid];
        [left; split; [done|]; by apply bool_decide_eq_true_2|]).
    + destruct (Hfree (to_object y)) as [[_ Hh]|Hno]; [| |by right].
      * by apply list_elem_of_fmap_2, upsert_others.
      * rewrite has_id_to_object in Hh. by apply bool_decide_eq_true_1 in Hh.
    + apply upsert_inv in Hy as [-> | Hy]; [done|].
      destruct (Hfree (to_object y)) as [[_ Hh]|Hno]; [| |by right].
      * by apply list_elem_of_fmap_2.
      * rewrite has_id_to_object in Hh. by apply bool_decide_eq_true_1 in Hh.
Qed.
End more_availability.

(** ** The submit handler and the store *)

Section more_submit.
Context `{Platform}.

Lemma NoDup_upsert a apts : NoDup (id <$> apts) → NoDup (id <$> upsert a apts).
Proof.
  intros Hnodup. unfold upsert.
  destruct (list_find _ apts) as [[n x]|] eqn:Hfind.
  - apply list_find_Some in Hfind as (Hn & Hx & _).
    rewrite list_fmap_insert, list_insert_id; [done|].
    by rewrite list_lookup_fmap, Hn, <- Hx.
  - apply list_find_None in Hfind. rewrite fmap_app. apply NoDup_app.
    split; [done|]. split; [|apply NoDup_singleton].
    intros k (y & -> & Hy)%list_elem_of_fmap Hk%list_elem_of_singleton.
    rewrite Forall_forall in Hfind. by apply (Hfind y).
Qed.

Lemma pairwise_free_upsert a apts :
  pairwise_free apts →
  (∀ x, x ∈ apts → id x ≠ id a →
     overlaps (start a) (end_ a) (start x) (end_ x) = false) →
  pairwise_free (upsert a apts).
Proof.
  intros Hfree Ha x y [-> | Hx]%upsert_inv [-> | Hy]%upsert_inv Hid.
  - done.
  - apply Ha; [done|]. by intros Heq.
  - rewrite overlaps_sym. by apply Ha.
  - by apply Hfree.
Qed.

Lemma consistent_upsert a apts :
  consistent apts → valid_times a →
  (∀ x, x ∈ apts → id x ≠ id a →
     overlaps (start a) (end_ a) (start x) (end_ x) = false) →
  consistent (upsert a apts).
Proof.
  intros (Hvalid & Hnodup & Hfree) Ha Hno. split; [|split].
  - by apply valid_times_upsert.
  - by apply NoDup_upsert.
  - by apply pairwise_free_upsert.
Qed.

Lemma consistent_filter (P : Appointment → Prop) `{!∀ x, Decision (P x)} apts :
  consistent apts → consistent (filter P apts).
Proof.
  intros (Hvalid & Hnodup & Hfree). split; [|split].
  - apply Forall_forall. intros x [_ Hx]%list_elem_of_filter.
    rewrite Forall_forall in Hvalid. auto.
  - eapply sublist_NoDup; [exact Hnodup|].
    apply fmap_sublist, sublist_filter.
  - intros x y [_ Hx]%list_elem_of_filter [_ Hy]%list_elem_of_filter.
    by apply Hfree.
Qed.

(** X13: the two ways the interface writes to the store keep the
    schedule consistent.  On a store of appointments with valid
    timestamps, one per id, of which no two overlap, the store that
    [handleSubmit] leaves, whether it accepts the form or rejects it,
    is again one, for a form whose start and end are valid dates; and
    so is the store that [deleteAppointment] leaves. *)
Theorem X13_writes_keep_schedule_consistent
    (props : BookingModalProps) (f : FormState) (env : Env)
    (i : jstring) (ls : Storage) (apts : list Appointment) :
  getAppointments ls = to_object <$> apts → consistent apts →
  (valid_date (startDateTime f) → valid_date (endDateTime f) →
   ∃ apts', getAppointments (storage (handleSubmit props f env ls))
            = to_object <$> apts' ∧ consistent apts')
  ∧ ∃ apts', getAppointments (deleteAppointment i ls).2 = to_object <$> apts'
             ∧ consistent apts'.
Proof.
  intros Hstored Hok. split.
  - intros Hs He.
    destruct (decide (error (handleSubmit props f env ls) = [])) as [Hnone|Herr].
    + apply handleSubmit_success in Hnone as (_ & _ & Hcheck & -> & _).
      set (a := submit_appointment props f env).
      assert (Ha : valid_times a) by done.
      exists (upsert a apts). split.
      * rewrite saveAppointment_storage, (saveAppointment_typed a ls apts Hstored).
        apply getAppointments_valid, valid_times_upsert; [done|apply Hok].
      * apply consistent_upsert; [done..|]. intros x Hx Hid.
        rewrite <- overlaps_record_to_object.
        destruct (proj1 (checkAvailability_true _ _ _ _) Hcheck (to_object x))
          as [Hex|Hno]; [by rewrite Hstored; apply list_elem_of_fmap_2| |done].
        destruct (existingAppointment props) as [old|] eqn:Hold; [|done].
        cbn [fmap option_fmap option_map] in Hex. destruct Hex as [_ Hh]. rewrite has_id_to_object in Hh.
        apply bool_decide_eq_true_1 in Hh. destruct Hid.
        subst a. unfold submit_appointment. by rewrite Hold.
    + apply handleSubmit_failure in Herr as [-> _]. by exists apts.
  - exists (filter (λ x, id x ≠ i) apts).
    assert (Hok' : consistent (filter (λ x, id x ≠ i) apts))
      by (by apply consistent_filter).
    split; [|done].
    change (deleteAppointment i ls).2
      with (<[LOCAL_STORAGE_KEY := serialize (deleteAppointment i ls).1]> ls).
    rewrite (deleteAppointment_typed i ls apts Hstored).
    apply getAppointments_valid, Hok'.
Qed.

(** X14: [handleSubmit] is all or nothing and keeps to its key.  It
    never touches another key of localStorage; it closes the modal
    exactly when it shows no error; with an error the store is left
    as it was; without one the key holds the collection with the
    submitted appointment in it. *)
Theorem X14_handleSubmit_all_or_nothing
    (props : BookingModalProps) (f : FormState) (env : Env) (ls : Storage) :
  (∀ k, k ≠ LOCAL_STORAGE_KEY →
     storage (handleSubmit props f env ls) !! k = ls !! k)
  ∧ closed (handleSubmit props f env ls)
    = bool_decide (error (handleSubmit props f env ls) = [])
  ∧ (error (handleSubmit props f env ls) ≠ [] →
     storage (handleSubmit props f env ls) = ls)
  ∧ (error (handleSubmit props f env ls) = [] →
     ∃ l, storage (handleSubmit props f env ls) !! LOCAL_STORAGE_KEY
          = Some (serialize l)
          ∧ to_object (submit_appointment props f env) ∈ l).
Proof.
  destruct (decide (error (handleSubmit props f env ls) = [])) as [Hnone|Herr].
  - rewrite bool_decide_eq_true_2 by done.
    destruct (handleSubmit_success _ _ _ _ Hnone) as (_ & _ & _ & -> & ->).
    split; [|split; [done|split; [done|]]].
    + intros k Hk. rewrite saveAppointment_storage. by apply lookup_insert_ne.
    + intros _. eexists. rewrite saveAppointment_storage, lookup_insert_eq.
      split; [done|]. unfold saveAppointment. cbn [fst].
      destruct (list_find _ _) as [[n x]|] eqn:Hfind.
      * apply list_find_Some in Hfind as (Hn & _).
        apply list_elem_of_lookup. exists n.
        apply list_lookup_insert_eq. by eapply lookup_lt_Some.
      * apply elem_of_app. right. by apply list_elem_of_singleton.
  - rewrite bool_decide_eq_false_2 by done.
    destruct (handleSubmit_failure _ _ _ _ Herr) as [-> ->]. done.
Qed.

(** X15: a date and time that do not parse get booked.  When the
    fields are filled in and [new Date] of the date and time is an
    Invalid Date, [handleSubmit] raises no error, whatever the clock
    and the store: neither the test for the past nor the overlap
    check holds for [NaN].  The appointment is written with [null]
    for both dates and is read back starting and ending at the
    epoch. *)
Theorem X15_unparsable_date_is_booked
    (props : BookingModalProps) (f : FormState) (env : Env)
    (ls : Storage) (apts : list Appointment) :
  getAppointments ls = to_object <$> apts →
  filled f → startDateTime f = NaN →
  error (handleSubmit props f env ls) = []
  ∧ closed (handleSubmit props f env ls) = true
  ∧ ∃ a, to_object a ∈ getAppointments (storage (handleSubmit props f env ls))
         ∧ title a = form_title f ∧ requesterName a = form_name f
         ∧ start a = Some 0 ∧ end_ a = Some 0.
Proof.
  intros Hstored Hfilled Hnan.
  assert (Hend : endDateTime f = NaN).
  { unfold endDateTime. by rewrite Hnan. }
  rewrite handleSubmit_checked; [|done|by unfold not_past; rewrite Hnan].
  rewrite checkAvailability_nan by auto. cbn [error closed storage].
  split; [done|]. split; [done|].
  set (a := submit_appointment props f env).
  assert (Hwf : wf_times a).
  { split; cbn [a submit_appointment start end_]; by rewrite ?Hnan, ?Hend. }
  exists (reload a). split.
  - rewrite saveAppointment_storage, (saveAppointment_typed a ls apts Hstored).
    rewrite getAppointments_stored
      by (apply wf_times_upsert; [done|by eapply stored_wf]).
    do 2 apply list_elem_of_fmap_2. apply elem_of_upsert.
  - cbn [reload a submit_appointment title requesterName start end_].
    by rewrite Hnan, Hend.
Qed.
End more_submit.

(** ** The assistant *)

Section more_assistant.

Lemma trim_nil_inv k : trim k ≠ [] → k ≠ [].
Proof. by intros Hk ->. Qed.

Lemma getAiClient_Some API_KEY c :
  getAiClient API_KEY = Some c ↔ API_KEY = Some c ∧ trim c ≠ [].
Proof.
  unfold getAiClient. destruct API_KEY as [k|]; [|by split; [|intros []]].
  destruct (decide (trim k = [])) as [Hk|Hk].
  - rewrite (bool_decide_eq_true_2 (trim k = [])), orb_true_r by done.
    split; [done|]. intros [[= ->] ?]. done.
  - rewrite (bool_decide_eq_false_2 (trim k = [])) by done.
    rewrite (bool_decide_eq_false_2 (k = [])) by (by apply trim_nil_inv).
    cbn [orb]. split; [by intros [= ->]|]. by intros [[= ->] _].
Qed.

Lemma parseBookingRequest_truthy API_KEY generateContent p today v :
  parseBookingRequest API_KEY generateContent p today = v → ToBoolean v = true →
  (∃ k, API_KEY = Some k ∧ trim k ≠ [])
  ∧ ∃ text, generateContent p today = Replied (Some text)
            ∧ JSON_parse text = Some v.
Proof.
  unfold parseBookingRequest. intros Hv Htrue.
  destruct (getAiClient API_KEY) as [c|] eqn:Hclient;
    [|by subst v].
  apply getAiClient_Some in Hclient as [-> Hc].
  split; [by exists c|].
  destruct (generateContent p today) as [|[text|]]; [by subst v| |by subst v].
  exists text. split; [done|].
  destruct (bool_decide (text = [])); [by subst v|].
  destruct (JSON_parse text) as [w|]; [by subst w|by subst v].
Qed.

(** X16: an API key of white space only.  The component takes the key
    for present ([hasApiKey] is [true], so the input is shown), while
    [getAiClient] makes no client for it: every request with a prompt
    that is not blank ends, without the service being asked and
    without a suggestion being passed on, with the message that the
    date or time was not understood. *)
Theorem X16_blank_api_key_misreported
    (k : jstring) (generateContent : Service) (onSuggestion : value → bool)
    (now : Z) (st : AISchedulerState) :
  k ≠ [] → trim k = [] → trim (prompt st) ≠ [] →
  hasApiKey (Some k) = true
  ∧ handleSmartSchedule (Some k) generateContent onSuggestion now st
    = ({| prompt := prompt st; isProcessing := false;
          ai_error := Some unclear_message |}, None).
Proof.
  intros Hk Hblank Hprompt.
  assert (Hhas : hasApiKey (Some k) = true).
  { unfold hasApiKey. by rewrite bool_decide_eq_false_2. }
  split; [exact Hhas|].
  unfold handleSmartSchedule. rewrite bool_decide_eq_false_2 by done.
  unfold parseBookingRequest, getAiClient.
  rewrite (bool_decide_eq_true_2 (trim k = [])), orb_true_r by done.
  cbn [ToBoolean andb]. by rewrite Hhas.
Qed.

(** X17: when a suggestion is passed on.  [handleSmartSchedule] calls
    [onSuggestion] with [v] exactly when the prompt is not blank, the
    API key is more than white space, the service has replied with a
    text, [JSON.parse] of the text is [v], and [v] is an object with
    a truthy [date] and a truthy [startTime].  Nothing else about [v]
    is checked. *)
Theorem X17_suggestion_forwarded_iff
    (API_KEY : option jstring) (generateContent : Service)
    (onSuggestion : value → bool) (now : Z) (st : AISchedulerState)
    (v : value) :
  (handleSmartSchedule API_KEY generateContent onSuggestion now st).2 = Some v
  ↔ trim (prompt st) ≠ []
    ∧ (∃ k, API_KEY = Some k ∧ trim k ≠ [])
    ∧ (∃ text, generateContent (prompt st) (Some now) = Replied (Some text)
               ∧ JSON_parse text = Some v)
    ∧ ∃ o, v = VObj o ∧ ToBoolean (obj_get o (js "date")) = true
           ∧ ToBoolean (obj_get o (js "startTime")) = true.
Proof.
  unfold handleSmartSchedule. split.
  - destruct (decide (trim (prompt st) = [])) as [Hp|Hp].
    { by rewrite bool_decide_eq_true_2. }
    rewrite bool_decide_eq_false_2 by done.
    destruct (parseBookingRequest _ _ _ _) as [| |b|m e|s|d|l|o] eqn:Hparse;
      cbn [ToBoolean get_property andb]; rewrite ?andb_false_r; try done.
    destruct (ToBoolean (obj_get o (js "date"))) eqn:Hdate; [|done].
    destruct (ToBoolean (obj_get o (js "startTime"))) eqn:Htime; [|done].
    cbn [andb].
    intros Hv. assert (v = VObj o) as -> by (by destruct (onSuggestion _); inv Hv).
    destruct (parseBookingRequest_truthy _ _ _ _ _ Hparse eq_refl) as [Hkey Hreply].
    split; [done|]. split; [done|]. split; [done|]. by exists o.
  - intros (Hp & (k & -> & Hk) & (text & Hreply & Hjson) & (o & -> & Hdate & Htime)).
    rewrite bool_decide_eq_false_2 by done.
    assert (Hparse : parseBookingRequest (Some k) generateContent (prompt st)
                       (Some now) = VObj o).
    { unfold parseBookingRequest, getAiClient.
      rewrite (bool_decide_eq_false_2 (trim k = [])) by done.
      rewrite (bool_decide_eq_false_2 (k = [])) by (by apply trim_nil_inv).
      cbn [orb]. rewrite Hreply.
      rewrite bool_decide_eq_false_2 by (by intros ->).
      by rewrite Hjson. }
    rewrite Hparse. cbn [ToBoolean get_property andb]. rewrite Hdate, Htime.
    cbn [andb]. by destruct (onSuggestion _).
Qed.
End more_assistant.

(** ** The form of the modal *)

Section more_modal.
Context `{Platform}.

Lemma before_first_app c l r :
  Forall (λ x, x ≠ c) l → before_first c (l ++ c :: r) = l.
Proof.
  induction 1 as [|x l Hx _ IH]; cbn [before_first app].
  - by rewrite bool_decide_eq_true_2.
  - by rewrite bool_decide_eq_false_2, IH.
Qed.

Lemma pad_digits k n : Forall (λ x, (48 ≤ x ≤ 57)%N) (pad k n).
Proof.
  revert n. induction k as [|k IH]; intros n; cbn [pad]; [constructor|].
  apply Forall_app. split; [apply IH|]. constructor; [|constructor].
  unfold digit. pose proof (Z.mod_pos_bound n 10). lia.
Qed.

Lemma pad_no_T k n : Forall (λ x, x ≠ 84%N) (pad k n).
Proof. eapply Forall_impl; [apply pad_digits|]. cbn. lia. Qed.

Lemma year_string_no_T y : Forall (λ x, x ≠ 84%N) (year_string y).
Proof.
  unfold year_string. destruct (_ && _); [apply pad_no_T|].
  apply Forall_app_2; [|apply pad_no_T].
  destruct (bool_decide _); apply (bool_decide_unpack _); by vm_compute.
Qed.

Lemma date_field_iso_date t : date_field (Some t) = Some (iso_date (t / msPerDay)).
Proof.
  unfold date_field. cbn [mbind option_bind]. f_equal.
  unfold toISOString, iso_date. destruct (civil_from_days _) as [[y m] d].
  assert (Hdash : Forall (λ x, x ≠ 84%N) (js "-"))
    by (apply (bool_decide_unpack _); by vm_compute).
  set (rest := pad 2 (t `mod` msPerDay / 3600000) ++ _).
  change (js "T" ++ rest) with (84%N :: rest).
  trans (before_first 84
           ((year_string y ++ js "-" ++ pad 2 m ++ js "-" ++ pad 2 d)
            ++ 84%N :: rest)).
  { f_equal. by rewrite <- !(assoc_L (++)). }
  apply before_first_app.
  repeat (apply Forall_app_2;
          [first [apply year_string_no_T | apply pad_no_T | exact Hdash]|]).
  apply pad_no_T.
Qed.
Lemma syncState_existing props init f err existing f1 err1 :
  isOpen init = true → existingAppointment props = Some existing →
  syncState props init f err = EffectState f1 err1 →
  whole_minutes existing = Some (form_duration f1) ∧ err1 = []
  ∧ (currentUserRole props = colleague → type existing = availability →
     form_title f1 = [] ∧ form_name f1 = []).
Proof.
  intros Hopen Hex. unfold syncState, isBookingOpenSlot. rewrite Hopen, Hex.
  destruct (match initialDate init with Some _ => _ | None => _ end); [|done].
  destruct (whole_minutes existing) as [d|]; [|done].
  destruct (decide (currentUserRole props = colleague)) as [->|Hrole].
  - destruct (decide (type existing = availability)) as [->|Htype].
    + cbn. intros [= <- <-]. done.
    + rewrite (bool_decide_eq_false_2 (type existing = availability)) by done.
      rewrite andb_false_r. intros [= <- <-]. done.
  - rewrite (bool_decide_eq_false_2 (currentUserRole props = colleague)) by done.
    cbn [andb]. intros [= <- <-]. done.
Qed.

(** X18: the date that the modal shows is the UTC date of
    [initialDate], not the local one.  When the modal opens with an
    Invalid Date the effect throws.  With the instant [t] the date of
    the form becomes the calendar date of the day [t / msPerDay]; so
    for the midnight that starts a local day, as the days of the
    calendar grid are, it is the date of the day before in every time
    zone ahead of UTC, and the date of that day in the others. *)
Theorem X18_modal_date_is_utc_date `{TimeZone}
    (props : BookingModalProps) (init : ModalInit) (f : FormState)
    (err : jstring) :
  isOpen init = true →
  (initialDate init = Some NaN → syncState props init f err = EffectThrows)
  ∧ ∀ t f' err',
      initialDate init = Some (Some t) →
      syncState props init f err = EffectState f' err' →
      form_date f' = iso_date (t / msPerDay)
      ∧ (LocalTime t `mod` msPerDay = 0 → 0 < LocalTZA t true ≤ msPerDay →
         form_date f' = iso_date (LocalTime t / msPerDay - 1))
      ∧ (LocalTime t `mod` msPerDay = 0 → - msPerDay < LocalTZA t true ≤ 0 →
         form_date f' = iso_date (LocalTime t / msPerDay)).
Proof.
  intros Hopen. split.
  - intros Hdate. unfold syncState. by rewrite Hopen, Hdate.
  - intros t f' err' Hdate Hsync.
    assert (Hfield : form_date f' = iso_date (t / msPerDay)).
    { revert Hsync. unfold syncState.
      rewrite Hopen, Hdate, date_field_iso_date.
      destruct (existingAppointment props) as [existing|].
      - destruct (whole_minutes existing); [|done].
        destruct (_ && _); by intros [= <- _].
      - by intros [= <- _]. }
    split; [exact Hfield|]. rewrite Hfield. unfold LocalTime, msPerDay.
    split; intros Hmid Hoff; f_equal;
      apply Z.div_exact in Hmid; try lia;
      set (q := (t + LocalTZA t true) / 86400000) in *.
    + symmetry. apply (Z.div_unique _ _ _ (86400000 - LocalTZA t true)); lia.
    + symmetry. apply (Z.div_unique _ _ _ (- LocalTZA t true)); lia.
Qed.

(** X19: booking or editing an existing slot with the form as the
    effect fills it.  The duration of the form is the length of the
    slot, so the end that [handleSubmit] computes is the end of the
    slot whenever the date and time of the form denote its start, and
    the appointment it builds has the slot's id, start and end.  The
    effect clears the error; and for a colleague on an open slot it
    empties title and name, so that submitting the form as filled is
    refused and leaves the store as it is. *)
Theorem X19_prefilled_form_keeps_slot
    (props : BookingModalProps) (init : ModalInit) (f : FormState)
    (err : jstring) (existing : Appointment) (f1 : FormState) (err1 : jstring)
    (env : Env) (ls : Storage) :
  isOpen init = true → existingAppointment props = Some existing →
  syncState props init f err = EffectState f1 err1 →
  (∀ f2, form_duration f2 = form_duration f1 →
         startDateTime f2 = start existing → wf_date (end_ existing) →
         endDateTime f2 = end_ existing
         ∧ id (submit_appointment props f2 env) = id existing
         ∧ start (submit_appointment props f2 env) = start existing
         ∧ end_ (submit_appointment props f2 env) = end_ existing)
  ∧ err1 = []
  ∧ (currentUserRole props = colleague → type existing = availability →
     handleSubmit props f1 env ls
     = {| error := js "All fields are required."; storage := ls;
          closed := false |}).
Proof.
  intros Hopen Hex Hsync.
  destruct (syncState_existing _ _ _ _ _ _ _ Hopen Hex Hsync)
    as (Hmin & Herr & Hempty).
  split; [|split; [exact Herr|]].
  - intros f2 Hdur Hstart Hwf.
    assert (Hend : endDateTime f2 = end_ existing).
    { unfold endDateTime. rewrite Hstart, Hdur. revert Hmin Hwf.
      unfold whole_minutes, wf_date, getTime.
      destruct (start existing) as [s|], (end_ existing) as [e|]; try done.
      case_bool_decide as Hmod; [|done]. intros [= <-] Hwf.
      cbn [num_add mbind option_bind]. rewrite <- Hwf. do 2 f_equal.
      apply Z.div_exact in Hmod; lia. }
    split; [exact Hend|]. unfold submit_appointment. cbn [id start end_].
    by rewrite Hex.
  - intros Hrole Htype. destruct (Hempty Hrole Htype) as [Htitle Hname].
    unfold handleSubmit. rewrite Htitle.
    rewrite (bool_decide_eq_true_2 ([] = [])) by done.
    by rewrite !orb_true_r.
Qed.
End more_modal.

(** ** The calendar grid *)

Section more_calendar.
Context `{TimeZone}.

Lemma HourFromTime_range t : 0 ≤ HourFromTime t < 24.
Proof. unfold HourFromTime. apply Z.mod_pos_bound. lia. Qed.

Lemma MinFromTime_range t : 0 ≤ MinFromTime t < 60.
Proof. unfold MinFromTime. apply Z.mod_pos_bound. lia. Qed.

(** Of the 1440 times of day, the labels of the rows are the 28 half
    hours from 08:00 to 21:30. *)
Lemma timeSlots_checked :
  forallb (λ h,
    forallb (λ m,
      implb (bool_decide (pad 2 h ++ js ":" ++ pad 2 m ∈ timeSlots))
            (bool_decide (8 ≤ h < 22 ∧ (m = 0 ∨ m = 30))))
      (seqZ 0 60))
    (seqZ 0 24) = true.
Proof. by vm_compute. Qed.

Lemma timeSlots_labels h m :
  0 ≤ h < 24 → 0 ≤ m < 60 →
  pad 2 h ++ js ":" ++ pad 2 m ∈ timeSlots → 8 ≤ h < 22 ∧ (m = 0 ∨ m = 30).
Proof.
  intros Hh Hm Hin. pose proof timeSlots_checked as Hall.
  rewrite forallb_forall in Hall.
  assert (Hrow : In h (seqZ 0 24)) by (apply list_elem_of_In, elem_of_seqZ; lia).
  apply Hall in Hrow. rewrite forallb_forall in Hrow.
  assert (Hcell : In m (seqZ 0 60)) by (apply list_elem_of_In, elem_of_seqZ; lia).
  apply Hrow in Hcell. rewrite bool_decide_eq_true_2 in Hcell by done.
  by apply bool_decide_eq_true_1 in Hcell.
Qed.

(** X20: what the calendar shows.  The appointment that [renderSlot]
    puts in a cell of the grid is a stored one that starts on the day
    of the cell at a full or half hour from 08:00 to 21:30, local
    time.  An appointment that starts at another minute or hour, as
    the time field of the form allows, is shown in no cell. *)
Theorem X20_calendar_shows_grid_starts_only
    (appointments : list Appointment) (day : Date) (time : jstring)
    (a : Appointment) :
  time ∈ timeSlots → cell_appointment appointments day time = Some a →
  a ∈ appointments
  ∧ ∃ t, start a = Some t
         ∧ 8 ≤ HourFromTime (LocalTime t) < 22
         ∧ (MinFromTime (LocalTime t) = 0 ∨ MinFromTime (LocalTime t) = 30)
         ∧ isSameDay (Some t) day = true
         ∧ format_HH_mm (Some t) = Some time.
Proof.
  intros Htime. unfold cell_appointment.
  destruct (list_find _ _) as [[n x]|] eqn:Hfind; [|done].
  intros [= ->]. apply list_find_Some in Hfind as (Hn & Hx & _).
  split; [by eapply list_elem_of_lookup_2|].
  apply andb_True in Hx as [Hday Hfmt].
  apply Is_true_true_1 in Hday. apply bool_decide_unpack in Hfmt.
  destruct (start a) as [t|]; [|done]. exists t. split; [done|].
  assert (Hlabel : pad 2 (HourFromTime (LocalTime t)) ++ js ":"
                   ++ pad 2 (MinFromTime (LocalTime t)) = time).
  { unfold format_HH_mm in Hfmt. cbn [mbind option_bind] in Hfmt. congruence. }
  rewrite <- Hlabel in Htime.
  apply timeSlots_labels in Htime;
    [|apply HourFromTime_range|apply MinFromTime_range].
  destruct Htime as [Hh Hm]. repeat split; try done; lia.
Qed.
End more_calendar.

(** ** The further properties on the example store *)

Section more_examples.
#[local] Existing Instance utc_platform.

Lemma ex_store_typed : getAppointments ex_store = to_object <$> [ex_open; ex_meeting].
Proof. by vm_compute. Qed.

Lemma ex_clash_valid : valid_times ex_clash.
Proof. split; eexists; (split; [reflexivity|]); unfold maxTime; lia. Qed.

Lemma ex_store_absent i :
  i ≠ id ex_open → i ≠ id ex_meeting →
  ∀ x, x ∈ getAppointments ex_store → has_id i x = false.
Proof.
  intros H1 H2 x Hx. rewrite ex_store_typed in Hx.
  apply list_elem_of_fmap in Hx as (y & -> & Hy). rewrite has_id_to_object.
  apply bool_decide_eq_false_2.
  apply elem_of_cons in Hy as [->|Hy]; [by intros ?|].
  apply list_elem_of_singleton in Hy as ->. by intros ?.
Qed.

Lemma X1_witness :
  (∀ x, x ∈ getAppointments ex_store → has_id (js "c1") x = false)
  ∧ (deleteAppointment (js "c1") ex_store).1 = getAppointments ex_store.
Proof.
  assert (Hnone : ∀ x, x ∈ getAppointments ex_store → has_id (js "c1") x = false)
    by (by apply ex_store_absent).
  split; [done|].
  destruct (X1_deleteAppointment_removes_exactly (js "c1") ex_store)
    as (_ & _ & Hsame & _).
  exact (Hsame Hnone).
Defined.

Lemma X2_witness :
  getAppointments ex_store = to_object <$> [ex_open; ex_meeting]
  ∧ Forall valid_times [ex_open; ex_meeting]
  ∧ getAppointments (deleteAppointment (js "a1") ex_store).2
    = (deleteAppointment (js "a1") ex_store).1
  ∧ (deleteAppointment (js "a1") ex_store).1
    = to_object <$> filter (λ x, id x ≠ js "a1") [ex_open; ex_meeting]
  ∧ deleteAppointment (js "a1") (deleteAppointment (js "a1") ex_store).2
    = deleteAppointment (js "a1") ex_store.
Proof.
  split; [exact ex_store_typed|]. split; [exact ex_valid_times|].
  exact (X2_deleteAppointment_persists_idempotent (js "a1") ex_store
           [ex_open; ex_meeting] ex_store_typed ex_valid_times).
Defined.

Lemma X3_witness :
  getAppointments ex_store = to_object <$> [ex_open; ex_meeting]
  ∧ Forall valid_times [ex_open; ex_meeting] ∧ valid_times ex_clash
  ∧ getAppointments (saveAppointment ex_clash ex_store).2
    = (saveAppointment ex_clash ex_store).1
  ∧ to_object ex_clash ∈ getAppointments (saveAppointment ex_clash ex_store).2.
Proof.
  split; [exact ex_store_typed|]. split; [exact ex_valid_times|].
  split; [exact ex_clash_valid|].
  exact (X3_saveAppointment_read_back ex_clash ex_store [ex_open; ex_meeting]
           ex_store_typed ex_valid_times ex_clash_valid).
Defined.

Lemma ex_invalid_wf : wf_times ex_invalid.
Proof. split; reflexivity. Qed.

Lemma X4_witness :
  getAppointments ex_store = to_object <$> [ex_open; ex_meeting]
  ∧ wf_times ex_invalid ∧ start ex_invalid = NaN
  ∧ to_object (reload ex_invalid)
      ∈ getAppointments (saveAppointment ex_invalid ex_store).2
  ∧ start (reload ex_invalid) = Some 0.
Proof.
  split; [exact ex_store_typed|]. split; [exact ex_invalid_wf|].
  split; [reflexivity|].
  destruct (X4_invalid_date_reloads_as_epoch ex_invalid ex_store
              [ex_open; ex_meeting] ex_store_typed ex_invalid_wf eq_refl)
    as (Hin & Hstart & _).
  by split.
Defined.

Lemma ex_store_unique : unique_ids (getAppointments ex_store).
Proof.
  intros i. rewrite ex_store_typed. cbn [fmap list_fmap].
  rewrite !count_id_cons, !has_id_to_object. cbn [filter list_filter length].
  destruct (decide (id ex_open = i)) as [<-|Hne].
  - rewrite bool_decide_eq_true_2, bool_decide_eq_false_2 by done. cbn. lia.
  - rewrite (bool_decide_eq_false_2 (id ex_open = i)) by done.
    case_bool_decide; cbn; lia.
Qed.

Lemma X5_witness :
  unique_ids (getAppointments ex_store)
  ∧ unique_ids (saveAppointment ex_booked ex_store).1
  ∧ unique_ids (deleteAppointment (js "m1") ex_store).1.
Proof.
  split; [exact ex_store_unique|].
  exact (X5_unique_ids_kept ex_booked (js "m1") ex_store ex_store_unique).
Defined.

Lemma ex_clash_fresh : Forall (λ x, id x ≠ id ex_clash) [ex_open; ex_meeting].
Proof. repeat constructor; by intros ?. Qed.

Lemma X6_witness :
  getAppointments ex_store = to_object <$> [ex_open; ex_meeting]
  ∧ Forall valid_times [ex_open; ex_meeting] ∧ valid_times ex_clash
  ∧ Forall (λ x, id x ≠ id ex_clash) [ex_open; ex_meeting]
  ∧ (deleteAppointment (id ex_clash) (saveAppointment ex_clash ex_store).2).1
    = getAppointments ex_store
  ∧ getAppointments
      (deleteAppointment (id ex_clash) (saveAppointment ex_clash ex_store).2).2
    = getAppointments ex_store.
Proof.
  split; [exact ex_store_typed|]. split; [exact ex_valid_times|].
  split; [exact ex_clash_valid|]. split; [exact ex_clash_fresh|].
  exact (X6_save_then_delete_restores ex_clash ex_store [ex_open; ex_meeting]
           ex_store_typed ex_valid_times ex_clash_valid ex_clash_fresh).
Defined.

Lemma ex_booked_valid : valid_times ex_booked.
Proof. split; eexists; (split; [reflexivity|]); unfold maxTime; lia. Qed.

Lemma X7_witness :
  getAppointments ex_store = to_object <$> [ex_open; ex_meeting]
  ∧ Forall valid_times [ex_open; ex_meeting] ∧ valid_times ex_booked
  ∧ id ex_booked = id ex_open
  ∧ saveAppointment ex_open (saveAppointment ex_booked ex_store).2
    = saveAppointment ex_open ex_store.
Proof.
  split; [exact ex_store_typed|]. split; [exact ex_valid_times|].
  split; [exact ex_booked_valid|]. split; [reflexivity|].
  exact (X7_saveAppointment_last_write_wins ex_booked ex_open ex_store
           [ex_open; ex_meeting] ex_store_typed ex_valid_times ex_booked_valid
           eq_refl).
Defined.

Lemma ex_garbled_key :
  ex_garbled !! LOCAL_STORAGE_KEY = Some (js "not json").
Proof. apply lookup_insert_eq. Qed.

Lemma X8_witness :
  ex_garbled !! LOCAL_STORAGE_KEY = Some (js "not json")
  ∧ deserialize (js "not json") = None
  ∧ (saveAppointment ex_clash ex_garbled).1 = [to_object ex_clash]
  ∧ (saveAppointment ex_clash ex_garbled).2 !! LOCAL_STORAGE_KEY
    = Some (serialize [to_object ex_clash])
  ∧ (deleteAppointment (js "a1") ex_garbled).1 = []
  ∧ (deleteAppointment (js "a1") ex_garbled).2 !! LOCAL_STORAGE_KEY
    = Some (js "[]").
Proof.
  assert (Hbad : deserialize (js "not json") = None) by (by vm_compute).
  split; [exact ex_garbled_key|]. split; [exact Hbad|].
  exact (X8_unreadable_payload_overwritten ex_clash (js "a1") ex_garbled
           (js "not json") ex_garbled_key Hbad).
Defined.

Lemma X9_witness :
  (NaN = NaN ∨ start ex_open = NaN)
  ∧ checkAvailability NaN (start ex_open) None ex_store = true.
Proof.
  split; [by left|].
  exact (X9_checkAvailability_invalid_date_free NaN (start ex_open) None
           ex_store (or_introl eq_refl)).
Defined.

Lemma X10_witness :
  1893499200000 ≤ 1893500000000 ∧ 1893501000000 ≤ 1893502800000
  ∧ checkAvailability (Some 1893499200000) (Some 1893502800000) None ex_store
    = true
  ∧ checkAvailability (Some 1893500000000) (Some 1893501000000) None ex_store
    = true.
Proof.
  assert (Hfree : checkAvailability (Some 1893499200000) (Some 1893502800000)
                    None ex_store = true) by (by vm_compute).
  split; [lia|]. split; [lia|]. split; [exact Hfree|].
  apply (X10_checkAvailability_narrowed 1893499200000 1893502800000
           1893500000000 1893501000000 None ex_store); [lia|lia|exact Hfree].
Defined.

Lemma X11_witness :
  (∀ x, x ∈ getAppointments ex_store → has_id (js "c1") x = false)
  ∧ checkAvailability (start ex_open) (end_ ex_open) (Some (js "c1")) ex_store
    = checkAvailability (start ex_open) (end_ ex_open) None ex_store.
Proof.
  assert (Hnone : ∀ x, x ∈ getAppointments ex_store → has_id (js "c1") x = false)
    by (by apply ex_store_absent).
  split; [exact Hnone|].
  destruct (X11_checkAvailability_exclusion (start ex_open) (end_ ex_open)
              (js "c1") ex_store) as [_ Hsame].
  exact (Hsame (or_intror Hnone)).
Defined.

Lemma X12_witness :
  getAppointments ex_store = to_object <$> [ex_open; ex_meeting]
  ∧ Forall valid_times [ex_open; ex_meeting] ∧ valid_times ex_clash
  ∧ num_lt (start ex_clash) (end_ ex_clash) = true ∧ id ex_clash ≠ []
  ∧ checkAvailability (start ex_clash) (end_ ex_clash) None
      (saveAppointment ex_clash ex_store).2 = false.
Proof.
  assert (Hlt : num_lt (start ex_clash) (end_ ex_clash) = true) by (by vm_compute).
  assert (Hid : id ex_clash ≠ []) by (by intros ?).
  split; [exact ex_store_typed|]. split; [exact ex_valid_times|].
  split; [exact ex_clash_valid|]. split; [exact Hlt|]. split; [exact Hid|].
  destruct (X12_saved_range_is_taken ex_clash ex_store [ex_open; ex_meeting]
              ex_store_typed ex_valid_times ex_clash_valid Hlt Hid) as [Htaken _].
  exact Htaken.
Defined.

Lemma ex_store_consistent : consistent [ex_open; ex_meeting].
Proof.
  split; [exact ex_valid_times|]. split.
  - apply (bool_decide_unpack _). by vm_compute.
  - intros x y Hx Hy Hid.
    apply elem_of_cons in Hx as [->|Hx%list_elem_of_singleton];
      apply elem_of_cons in Hy as [->|Hy%list_elem_of_singleton];
      subst; try done; by vm_compute.
Qed.

Lemma ex_form_valid :
  valid_date (startDateTime ex_form) ∧ valid_date (endDateTime ex_form).
Proof.
  split; eexists; (split; [by vm_compute|]); unfold maxTime; lia.
Qed.

Lemma X13_witness :
  let props := {| currentUserRole := colleague;
                  existingAppointment := Some ex_open |} in
  getAppointments ex_store = to_object <$> [ex_open; ex_meeting]
  ∧ consistent [ex_open; ex_meeting]
  ∧ valid_date (startDateTime ex_form) ∧ valid_date (endDateTime ex_form)
  ∧ ∃ apts', getAppointments (storage (handleSubmit props ex_form ex_env ex_store))
             = to_object <$> apts' ∧ consistent apts'.
Proof.
  intros props.
  split; [exact ex_store_typed|]. split; [exact ex_store_consistent|].
  split; [exact (proj1 ex_form_valid)|]. split; [exact (proj2 ex_form_valid)|].
  destruct (X13_writes_keep_schedule_consistent props ex_form ex_env (js "a1")
              ex_store [ex_open; ex_meeting] ex_store_typed ex_store_consistent)
    as [Hsubmit _].
  exact (Hsubmit (proj1 ex_form_valid) (proj2 ex_form_valid)).
Defined.

Lemma X14_witness :
  let props := {| currentUserRole := owner; existingAppointment := None |} in
  error (handleSubmit props ex_late ex_env ex_store) ≠ []
  ∧ storage (handleSubmit props ex_late ex_env ex_store) = ex_store.
Proof.
  intros props.
  assert (Herr : error (handleSubmit props ex_late ex_env ex_store) ≠ []).
  { assert (Hmsg : error (handleSubmit props ex_late ex_env ex_store)
                   = overlap_message) by (by vm_compute).
    rewrite Hmsg. by intros ?. }
  split; [exact Herr|].
  destruct (X14_handleSubmit_all_or_nothing props ex_late ex_env ex_store)
    as (_ & _ & Hsame & _).
  exact (Hsame Herr).
Defined.

Lemma X15_witness :
  let props := {| currentUserRole := owner; existingAppointment := None |} in
  getAppointments ex_store = to_object <$> [ex_open; ex_meeting]
  ∧ filled ex_unparsable ∧ startDateTime ex_unparsable = NaN
  ∧ error (handleSubmit props ex_unparsable ex_env ex_store) = []
  ∧ closed (handleSubmit props ex_unparsable ex_env ex_store) = true.
Proof.
  intros props.
  assert (Hfilled : filled ex_unparsable) by (repeat split; by intros ?).
  assert (Hnan : startDateTime ex_unparsable = NaN) by (by vm_compute).
  split; [exact ex_store_typed|]. split; [exact Hfilled|]. split; [exact Hnan|].
  destruct (X15_unparsable_date_is_booked props ex_unparsable ex_env ex_store
              [ex_open; ex_meeting] ex_store_typed Hfilled Hnan)
    as (Herr & Hclosed & _).
  by split.
Defined.

Lemma X16_witness :
  js " " ≠ [] ∧ trim (js " ") = [] ∧ trim (prompt ex_prompt) ≠ []
  ∧ hasApiKey (Some (js " ")) = true
  ∧ handleSmartSchedule (Some (js " ")) ex_service (λ _, true) 0 ex_prompt
    = ({| prompt := prompt ex_prompt; isProcessing := false;
          ai_error := Some unclear_message |}, None).
Proof.
  assert (H1 : js " " ≠ []) by (by intros ?).
  assert (H2 : trim (js " ") = []) by (by vm_compute).
  assert (H3 : trim (prompt ex_prompt) ≠ []) by (by vm_compute).
  split; [exact H1|]. split; [exact H2|]. split; [exact H3|].
  exact (X16_blank_api_key_misreported (js " ") ex_service (λ _, true) 0
           ex_prompt H1 H2 H3).
Defined.

Lemma X17_witness :
  (handleSmartSchedule (Some (js "key")) ex_service (λ _, true) 0 ex_prompt).2
  = Some (VObj ex_suggestion).
Proof.
  apply (X17_suggestion_forwarded_iff (Some (js "key")) ex_service (λ _, true) 0
           ex_prompt (VObj ex_suggestion)).
  split; [by vm_compute|]. split; [exists (js "key"); split; [done|by vm_compute]|].
  split; [exists ex_reply; split; [done|by vm_compute]|].
  exists ex_suggestion. split; [done|]. split; by vm_compute.
Defined.

Lemma X18_witness :
  let zone := fixed_zone 7200000 in
  isOpen ex_init_ahead = true
  ∧ initialDate ex_init_ahead = Some (Some 1893448800000)
  ∧ syncState ex_colleague_books ex_init_ahead ex_blank []
    = EffectState ex_prefilled_ahead []
  ∧ @LocalTime zone 1893448800000 `mod` msPerDay = 0
  ∧ 0 < @LocalTZA zone 1893448800000 true ≤ msPerDay
  ∧ iso_date (@LocalTime zone 1893448800000 / msPerDay) = js "2030-01-01"
  ∧ form_date ex_prefilled_ahead
    = iso_date (@LocalTime zone 1893448800000 / msPerDay - 1).
Proof.
  intros zone.
  assert (Hsync : syncState ex_colleague_books ex_init_ahead ex_blank []
                  = EffectState ex_prefilled_ahead []) by (by vm_compute).
  assert (Hmid : @LocalTime zone 1893448800000 `mod` msPerDay = 0) by (by vm_compute).
  assert (Hoff : 0 < @LocalTZA zone 1893448800000 true ≤ msPerDay)
    by (split; by vm_compute).
  split; [done|]. split; [done|]. split; [exact Hsync|]. split; [exact Hmid|].
  split; [exact Hoff|]. split; [by vm_compute|].
  destruct (@X18_modal_date_is_utc_date zone ex_colleague_books ex_init_ahead
              ex_blank [] eq_refl) as [_ Hdate].
  destruct (Hdate 1893448800000 ex_prefilled_ahead [] eq_refl Hsync)
    as (_ & Hahead & _).
  exact (Hahead Hmid Hoff).
Defined.

Lemma X19_witness :
  isOpen ex_init = true
  ∧ existingAppointment ex_colleague_books = Some ex_open
  ∧ syncState ex_colleague_books ex_init ex_blank (js "old") = EffectState ex_prefilled []
  ∧ form_duration ex_typed = form_duration ex_prefilled
  ∧ startDateTime ex_typed = start ex_open ∧ wf_date (end_ ex_open)
  ∧ endDateTime ex_typed = end_ ex_open.
Proof.
  assert (Hsync : syncState ex_colleague_books ex_init ex_blank (js "old")
                  = EffectState ex_prefilled []) by (by vm_compute).
  assert (Hstart : startDateTime ex_typed = start ex_open) by (by vm_compute).
  assert (Hwf : wf_date (end_ ex_open)) by reflexivity.
  split; [done|]. split; [done|]. split; [exact Hsync|]. split; [done|].
  split; [exact Hstart|]. split; [exact Hwf|].
  destruct (X19_prefilled_form_keeps_slot ex_colleague_books ex_init ex_blank
              (js "old") ex_open ex_prefilled [] ex_env ex_store eq_refl eq_refl
              Hsync) as [Hkeep _].
  destruct (Hkeep ex_typed eq_refl Hstart Hwf) as [Hend _]. exact Hend.
Defined.

Lemma X20_witness :
  let zone := fixed_zone 0 in
  js "10:00" ∈ timeSlots
  ∧ @cell_appointment zone [ex_open; ex_meeting] (Some 1893456000000) (js "10:00")
    = Some ex_open
  ∧ ∃ t, start ex_open = Some t
         ∧ 8 ≤ HourFromTime (@LocalTime zone t) < 22
         ∧ (MinFromTime (@LocalTime zone t) = 0 ∨ MinFromTime (@LocalTime zone t) = 30).
Proof.
  intros zone.
  assert (Hlabel : js "10:00" ∈ timeSlots)
    by (apply (bool_decide_unpack _); by vm_compute).
  assert (Hcell : @cell_appointment zone [ex_open; ex_meeting]
                    (Some 1893456000000) (js "10:00") = Some ex_open)
    by (by vm_compute).
  split; [exact Hlabel|]. split; [exact Hcell|].
  destruct (@X20_calendar_shows_grid_starts_only zone [ex_open; ex_meeting]
              (Some 1893456000000) (js "10:00") ex_open Hlabel Hcell)
    as (_ & t & Hstart & Hh & Hm & _).
  exists t. by split.
Defined.
End more_examples.
